(** * cinolib mesh smoother: a shallow embedding of [smoother.cpp]

    The file follows [include/cinolib/smoother.cpp]: the four assembly
    operations ([laplacian_term], [smooth_on_tangent_space],
    [smooth_on_tangent_line], [hold_corner]), the vertex classifier
    [label_features] and the driver [mesh_smoother].

    - [uint] is a 32-bit unsigned integer: a value of [N] with the
      wrap-around of every addition and multiplication written out;
    - [double] is the kernel's binary64 [float];
    - [std::vector] is a [list], [push_back] appends at the end;
    - [std::unordered_map<uint,std::pair<vec3d,uint>>] is a [gmap];
    - [std::cout] is the list of the lines written so far;
    - a failed [assert], [feature_data.at] on a missing key, a read outside
      the solution vector and a failed solve end the call: [Abort]. *)

From Stdlib Require Import Floats NArith ZArith String List Lia DecimalString.
From stdpp Require Import base option list gmap.

Local Open Scope N_scope.

(** ** Machine integers *)

Definition uint_wrap (x : N) : N := x mod 2 ^ 32.
Definition uint_add (a b : N) : N := uint_wrap (a + b).
Definition uint_mul (a b : N) : N := uint_wrap (a * b).

(** [for(uint i=0; i<n; ++i)]: the values [i] takes, in order. *)
Definition uint_range (n : N) : list N := map N.of_nat (seq 0 (N.to_nat n)).

(** ** Outcomes of a call *)

Inductive failure : Type :=
| AssertionFailed (cond : string)
| KeyNotFound
| IndexOutOfRange
| SolveFailed.

Inductive outcome (A : Type) : Type :=
| Done (a : A)
| Abort (f : failure).
Arguments Done {A} a.
Arguments Abort {A} f.

Definition bind {A B : Type} (c : outcome A) (k : A -> outcome B) : outcome B :=
  match c with
  | Done a => k a
  | Abort f => Abort f
  end.

(** The assertions of smoother.cpp, by the condition that failed. *)
Definition nbrs_size_assertion : failure := AssertionFailed "nbrs.size()==2".
Definition does_not_contain_assertion : failure :=
  AssertionFailed "DOES_NOT_CONTAIN(feature_data,vid)".
Definition unknown_vertex_type_assertion : failure :=
  AssertionFailed "false && unknown vertex type".

Notation "'do' x <- c ; k" := (bind c (fun x => k))
  (at level 10, x name, c at level 100, k at level 200).

(** A loop whose body may abort: [for(x : l) s = body(s, x)]. *)
Fixpoint for_each {S X : Type} (body : S -> X -> outcome S) (l : list X) (s : S)
  : outcome S :=
  match l with
  | [] => Done s
  | x :: l' => do s' <- body s x; for_each body l' s'
  end.

(** ** Geometry *)

Record vec3d : Type := mk_vec3d { vx : float; vy : float; vz : float }.

(** Modelled from the spec: the [vec3d] operators of [cinolib/geometry/vec3.h]
    (difference, sum, product with a scalar, dot product, squared length);
    the header is not part of the sources. *)
Definition vec_sub (a b : vec3d) : vec3d :=
  mk_vec3d (vx a - vx b)%float (vy a - vy b)%float (vz a - vz b)%float.

Definition vec_add (a b : vec3d) : vec3d :=
  mk_vec3d (vx a + vx b)%float (vy a + vy b)%float (vz a + vz b)%float.

Definition vec_scale (a : vec3d) (t : float) : vec3d :=
  mk_vec3d (vx a * t)%float (vy a * t)%float (vz a * t)%float.

Definition dot (a b : vec3d) : float :=
  (vx a * vx b + vy a * vy b + vz a * vz b)%float.

Definition length_squared (a : vec3d) : float := dot a a.

(** Modelled from the spec: the cross product of [vec3d], by which the
    specification tests that two vectors are parallel. *)
Definition cross (a b : vec3d) : vec3d :=
  mk_vec3d (vy a * vz b - vz a * vy b)%float
           (vz a * vx b - vx a * vz b)%float
           (vx a * vy b - vy a * vx b)%float.

(** ** The mesh *)

(** [vert_data(vid).label] is an [int]; three of its values are the
    enumerators of smoother.h, every other value is [UNKNOWN]. *)
Inductive vert_label : Type := REGULAR | FEATURE | CORNER | UNKNOWN.

#[export] Instance vert_label_eq_dec : EqDecision vert_label.
Proof. solve_decision. Defined.

(** Modelled from the spec: [AbstractPolygonMesh], through the interface the
    smoother consumes (section 6): vertex and edge counts, vertex positions
    and labels (both mutable), the marked flag of an edge, the normal of a
    polygon, the vertex to polygon and vertex to edge adjacencies and the
    endpoints of an edge. *)
Record Mesh : Type := mk_Mesh {
  num_verts : N;
  num_edges : N;
  vert : N -> vec3d;
  label : N -> vert_label;
  marked : N -> bool;
  normal : N -> vec3d;
  adj_v2p : N -> list N;
  adj_v2e : N -> list N;
  edge_vert_ids : N -> N * N
}.

(** [m.vert(vid) = p] *)
Definition set_vert (m : Mesh) (vid : N) (p : vec3d) : Mesh :=
  mk_Mesh (num_verts m) (num_edges m)
          (fun v => if N.eqb v vid then p else vert m v)
          (label m) (marked m) (normal m) (adj_v2p m) (adj_v2e m) (edge_vert_ids m).

(** [m.vert_data(vid).label = l] *)
Definition set_label (m : Mesh) (vid : N) (l : vert_label) : Mesh :=
  mk_Mesh (num_verts m) (num_edges m) (vert m)
          (fun v => if N.eqb v vid then l else label m v)
          (marked m) (normal m) (adj_v2p m) (adj_v2e m) (edge_vert_ids m).

(** Modelled from the spec: [vert_opposite_to(eid,vid)], the other endpoint of
    an edge. *)
Definition vert_opposite_to (m : Mesh) (eid vid : N) : N :=
  let '(a, b) := edge_vert_ids m eid in
  if N.eqb a vid then b else a.

(** Modelled from the spec: [edge_verts(eid)], the positions of the two
    endpoints. *)
Definition edge_verts (m : Mesh) (eid : N) : list vec3d :=
  let '(a, b) := edge_vert_ids m eid in [vert m a; vert m b].

(** ** The linear system *)

(** [Entry(row, col, coefficient)] *)
Record Entry : Type := mk_Entry { e_row : N; e_col : N; e_val : float }.

(** [Eigen::SparseMatrix<double> A(rows, cols)] filled by [setFromTriplets]. *)
Record SparseMatrix : Type := mk_SparseMatrix {
  mat_rows : N;
  mat_cols : N;
  mat_triplets : list Entry
}.

Record SmootherOptions : Type := mk_SmootherOptions {
  laplacian_mode : Z;
  w_laplace : float;
  w_regular : float;
  w_feature : float;
  w_corner : float;
  n_iters : N;
  reproject_on_target : bool
}.

(** The external collaborators of the smoother: the Laplacian of
    laplacian.h, [vec3d::normalize], the octree of octree.h and the solver of
    linear_solvers.h.  None of them is part of the sources; the smoother is
    verified for every implementation of them.  The solver returns the
    solution vector [res], or nothing when it fails. *)
Class Collaborators : Type := {
  laplacian_matrix_entries : Mesh -> Z -> N -> list Entry;
  normalize : vec3d -> vec3d;
  Octree : Type;
  octree_new : Octree;
  build_from_mesh_polys : Octree -> Mesh -> Octree;
  add_segment : Octree -> N -> list vec3d -> Octree;
  build : Octree -> Octree;
  closest_point : Octree -> vec3d -> vec3d;
  solve_weighted_least_squares :
    SparseMatrix -> list float -> list float -> option (list float)
}.

(** The variables an iteration of [mesh_smoother] shares with the assembly
    operations, and the lines written to [std::cout]. *)
Record Assembly : Type := mk_Assembly {
  row : N;
  w : list float;
  entries : list Entry;
  rhs : list float;
  feature_data : gmap N (vec3d * N);
  cout : list string
}.

Definition push_entry (e : Entry) (s : Assembly) : Assembly :=
  mk_Assembly (row s) (w s) (entries s ++ [e]) (rhs s) (feature_data s) (cout s).

Definition push_rhs (b : float) (s : Assembly) : Assembly :=
  mk_Assembly (row s) (w s) (entries s) (rhs s ++ [b]) (feature_data s) (cout s).

Definition push_w (x : float) (s : Assembly) : Assembly :=
  mk_Assembly (row s) (w s ++ [x]) (entries s) (rhs s) (feature_data s) (cout s).

(** [++row] *)
Definition incr_row (s : Assembly) : Assembly :=
  mk_Assembly (uint_add (row s) 1) (w s) (entries s) (rhs s) (feature_data s) (cout s).

(** [row += k] *)
Definition advance_row (k : N) (s : Assembly) : Assembly :=
  mk_Assembly (uint_add (row s) k) (w s) (entries s) (rhs s) (feature_data s) (cout s).

(** [feature_data[vid] = d] *)
Definition set_feature (vid : N) (d : vec3d * N) (s : Assembly) : Assembly :=
  mk_Assembly (row s) (w s) (entries s) (rhs s) (<[vid := d]> (feature_data s)) (cout s).

(** [std::cout << line << std::endl] *)
Definition print (line : string) (s : Assembly) : Assembly :=
  mk_Assembly (row s) (w s) (entries s) (rhs s) (feature_data s) (cout s ++ [line]).

(** The column of each coordinate of a vertex, as every assembly operation
    computes it from [nv = m.num_verts()]. *)
Definition col_x (nv vid : N) : N := vid.
Definition col_y (nv vid : N) : N := uint_add nv vid.
Definition col_z (nv vid : N) : N := uint_add (uint_add nv nv) vid.

Section Smoother.

Context `{Collaborators}.

(** ** laplacian_term *)

Definition laplacian_term (m : Mesh) (mode : Z) (weight : float) (s : Assembly)
  : Assembly :=
  let L := laplacian_matrix_entries m mode 3 in
  let s := fold_left (fun s entry => push_entry entry s) L s in
  let extra_rows := uint_mul (num_verts m) 3 in
  let s := N.iter extra_rows (fun s => push_rhs 0%float (push_w weight s)) s in
  advance_row extra_rows s.

(** ** smooth_on_tangent_space *)

Definition tangent_space_row (m : Mesh) (vid : N) (weight : float)
  (s : Assembly) (pid : N) : Assembly :=
  let nv := num_verts m in
  let p := vert m vid in
  let n := normal m pid in
  let s := if (length_squared n =? 0)%float
           then print "WARNING: zero length face normal!" s else s in
  let s := push_entry (mk_Entry (row s) (col_x nv vid) (vx n)) s in
  let s := push_entry (mk_Entry (row s) (col_y nv vid) (vy n)) s in
  let s := push_entry (mk_Entry (row s) (col_z nv vid) (vz n)) s in
  let s := push_rhs (dot n p) s in
  let s := push_w weight s in
  incr_row s.

Definition smooth_on_tangent_space (m : Mesh) (vid : N) (weight : float)
  (s : Assembly) : Assembly :=
  fold_left (tangent_space_row m vid weight) (adj_v2p m vid) s.

(** ** smooth_on_tangent_line *)

(** The positions pushed into [nbrs]: the endpoint opposite to [vid] along
    each marked incident edge, in the order of [adj_v2e]. *)
Definition marked_nbrs (m : Mesh) (vid : N) : list vec3d :=
  map (fun eid => vert m (vert_opposite_to m eid vid))
      (filter (fun eid => marked m eid = true) (adj_v2e m vid)).

Definition smooth_on_tangent_line (m : Mesh) (vid : N) (weight : float)
  (s : Assembly) : outcome Assembly :=
  match marked_nbrs m vid with
  | [front; back] =>
      let dir := normalize (vec_sub front back) in
      let s := if (length_squared dir =? 0)%float
               then print "WARNING: zero length tangent curve!" s else s in
      match feature_data s !! vid with
      | Some _ => Abort does_not_contain_assertion
      | None =>
          let p := vert m vid in
          let nv := num_verts m in
          let col_t := uint_wrap (uint_add (uint_add nv nv) nv
                                  + N.of_nat (size (feature_data s))) in
          let s := set_feature vid (dir, col_t) s in

          let s := push_entry (mk_Entry (row s) (col_x nv vid) 1%float) s in
          let s := push_entry (mk_Entry (row s) col_t (- vx dir)%float) s in
          let s := push_rhs (vx p) s in
          let s := push_w weight s in
          let s := incr_row s in

          let s := push_entry (mk_Entry (row s) (col_y nv vid) 1%float) s in
          let s := push_entry (mk_Entry (row s) col_t (- vy dir)%float) s in
          let s := push_rhs (vy p) s in
          let s := push_w weight s in
          let s := incr_row s in

          let s := push_entry (mk_Entry (row s) (col_z nv vid) 1%float) s in
          let s := push_entry (mk_Entry (row s) col_t (- vz dir)%float) s in
          let s := push_rhs (vz p) s in
          let s := push_w weight s in
          let s := incr_row s in

          let s := push_entry (mk_Entry (row s) col_t 1%float) s in
          let s := push_rhs 0%float s in
          let s := push_w 1%float s in
          Done (incr_row s)
      end
  | _ => Abort nbrs_size_assertion
  end.

(** ** hold_corner *)

Definition hold_corner (m : Mesh) (vid : N) (weight : float) (s : Assembly)
  : Assembly :=
  let nv := num_verts m in
  let p := vert m vid in

  let s := push_entry (mk_Entry (row s) (col_x nv vid) 1%float) s in
  let s := push_rhs (vx p) s in
  let s := push_w weight s in
  let s := incr_row s in

  let s := push_entry (mk_Entry (row s) (col_y nv vid) 1%float) s in
  let s := push_rhs (vy p) s in
  let s := push_w weight s in
  let s := incr_row s in

  let s := push_entry (mk_Entry (row s) (col_z nv vid) 1%float) s in
  let s := push_rhs (vz p) s in
  let s := push_w weight s in
  incr_row s.

(** ** label_features *)

(** The inner loop: [count] is a [uint] that starts at 0. *)
Definition count_marked (m : Mesh) (vid : N) : N :=
  fold_left (fun count eid => if marked m eid then uint_add count 1 else count)
            (adj_v2e m vid) 0.

(** [switch(count)] *)
Definition label_of_count (count : N) : vert_label :=
  match count with
  | 0 => REGULAR
  | 2 => FEATURE
  | _ => CORNER
  end.

(** The body of the loop over the vertices. *)
Definition label_vertex (m : Mesh) (vid : N) : Mesh :=
  set_label m vid (label_of_count (count_marked m vid)).

Definition label_features (m : Mesh) : Mesh :=
  fold_left label_vertex (uint_range (num_verts m)) m.

(** ** mesh_smoother *)

(** The body of the assembly loop: [switch(m.vert_data(vid).label)]. *)
Definition assemble_vertex (m : Mesh) (opt : SmootherOptions)
  (s : Assembly) (vid : N) : outcome Assembly :=
  match label m vid with
  | REGULAR => Done (smooth_on_tangent_space m vid (w_regular opt) s)
  | FEATURE => smooth_on_tangent_line m vid (w_feature opt) s
  | CORNER => Done (hold_corner m vid (w_corner opt) s)
  | UNKNOWN => Abort unknown_vertex_type_assertion
  end.

(** The first half of an iteration: fresh [entries], [w], [rhs], [row] and
    [feature_data], the Laplacian block, then the loop over the vertices. *)
Definition assemble_system (m : Mesh) (opt : SmootherOptions) (out : list string)
  : outcome Assembly :=
  let s := mk_Assembly 0 [] [] [] ∅ out in
  let s := laplacian_term m (laplacian_mode opt) (w_laplace opt) s in
  for_each (assemble_vertex m opt) (uint_range (num_verts m)) s.

(** [A(row, m.num_verts()*3+feature_data.size())] with the triplets. *)
Definition system_matrix (m : Mesh) (s : Assembly) : SparseMatrix :=
  mk_SparseMatrix (row s)
                  (uint_mul (num_verts m) 3 + N.of_nat (size (feature_data s)))
                  (entries s).

(** [solve_weighted_least_squares(A, W, RHS, res)]; a failed solve ends the
    call. *)
Definition solve (A : SparseMatrix) (W RHS : list float) : outcome (list float) :=
  match solve_weighted_least_squares A W RHS with
  | Some res => Done res
  | None => Abort SolveFailed
  end.

(** [res[i]] *)
Definition res_at (res : list float) (i : N) : outcome float :=
  match res !! N.to_nat i with
  | Some x => Done x
  | None => Abort IndexOutOfRange
  end.

(** [feature_data.at(vid)] *)
Definition feature_at (fd : gmap N (vec3d * N)) (vid : N) : outcome (vec3d * N) :=
  match fd !! vid with
  | Some d => Done d
  | None => Abort KeyNotFound
  end.

(** The body of the reconstruction loop. *)
Definition update_vertex (opt : SmootherOptions) (ref_srf ref_feat : Octree)
  (fd : gmap N (vec3d * N)) (res : list float) (nv : N)
  (m : Mesh) (vid : N) : outcome Mesh :=
  match label m vid with
  | REGULAR | CORNER =>
      do x <- res_at res vid;
      do y <- res_at res (uint_add nv vid);
      do z <- res_at res (uint_add (uint_mul 2 nv) vid);
      let p := mk_vec3d x y z in
      Done (set_vert m vid
              (if reproject_on_target opt then closest_point ref_srf p else p))
  | FEATURE =>
      do d <- feature_at fd vid;
      do t <- res_at res (snd d);
      let p := vec_add (vert m vid) (vec_scale (fst d) t) in
      Done (set_vert m vid
              (if reproject_on_target opt then closest_point ref_feat p else p))
  | UNKNOWN => Abort unknown_vertex_type_assertion
  end.

(** [std::cout << "smooth iter #" << i << std::endl] *)
Definition iteration_line (i : N) : string :=
  String.append "smooth iter #" (NilEmpty.string_of_uint (N.to_uint i)).

(** One pass of the [for(uint i=0; i<opt.n_iters; ++i)] loop, on the mesh and
    the lines written so far. *)
Definition smooth_iter (opt : SmootherOptions) (ref_srf ref_feat : Octree)
  (st : Mesh * list string) (i : N) : outcome (Mesh * list string) :=
  let '(m, out) := st in
  let out := out ++ [iteration_line i] in
  do s <- assemble_system m opt out;
  let A := system_matrix m s in
  do res <- solve A (w s) (rhs s);
  let nv := num_verts m in
  do m' <- for_each (update_vertex opt ref_srf ref_feat (feature_data s) res nv)
                    (uint_range nv) m;
  Done (m', cout s).

(** The octrees of a call: built only if reprojection is needed. *)
Definition make_octrees (m target : Mesh) (opt : SmootherOptions) : Octree * Octree :=
  let ref_srf := octree_new in
  let ref_feat := octree_new in
  if reproject_on_target opt then
    let ref_srf := build_from_mesh_polys ref_srf target in
    let ref_feat :=
      fold_left (fun o eid => if marked m eid then add_segment o eid (edge_verts m eid) else o)
                (uint_range (num_edges m)) ref_feat in
    (ref_srf, build ref_feat)
  else (ref_srf, ref_feat).

(** [mesh_smoother(m, target, opt)], started with [out] already written to
    [std::cout]: the smoothed mesh and the output, or the failure that ended
    the call. *)
Definition mesh_smoother (m target : Mesh) (opt : SmootherOptions) (out : list string)
  : outcome (Mesh * list string) :=
  let '(ref_srf, ref_feat) := make_octrees m target opt in
  let m := label_features m in
  for_each (smooth_iter opt ref_srf ref_feat) (uint_range (n_iters opt)) (m, out).

End Smoother.

(** * Vocabulary of the properties

    ** Rows of the system, as the specification speaks of them

    An equation is one row of the weighted system: its non-zero coefficients
    by column, its right-hand side and its weight.  [emit_rows] appends
    equations at the current row counter, one row each. *)
Record Equation : Type := mk_Equation {
  eq_coeffs : list (N * float);
  eq_rhs : float;
  eq_weight : float
}.

Definition emit_row (s : Assembly) (e : Equation) : Assembly :=
  mk_Assembly (uint_add (row s) 1)
              (w s ++ [eq_weight e])
              (entries s ++ map (fun cv => mk_Entry (row s) (fst cv) (snd cv)) (eq_coeffs e))
              (rhs s ++ [eq_rhs e])
              (feature_data s) (cout s).

Definition emit_rows (eqs : list Equation) (s : Assembly) : Assembly :=
  fold_left emit_row eqs s.

Definition print_lines (lines : list string) (s : Assembly) : Assembly :=
  fold_left (fun s line => print line s) lines s.

(** The equations of a FEATURE vertex with tangent direction [dir] and
    parameter column [col_t]: [p_new - t*dir = p] per coordinate, then
    [t = 0] with weight 1. *)
Definition feature_equations (m : Mesh) (opt : SmootherOptions) (vid : N)
  (dir : vec3d) (col_t : N) : list Equation :=
  let nv := num_verts m in
  let p := vert m vid in
  [ mk_Equation [(col_x nv vid, 1%float); (col_t, (- vx dir)%float)] (vx p) (w_feature opt);
    mk_Equation [(col_y nv vid, 1%float); (col_t, (- vy dir)%float)] (vy p) (w_feature opt);
    mk_Equation [(col_z nv vid, 1%float); (col_t, (- vz dir)%float)] (vz p) (w_feature opt);
    mk_Equation [(col_t, 1%float)] 0%float 1%float ].

(** The equation of a REGULAR vertex for one incident polygon:
    [n . p_new = n . p]. *)
Definition regular_equation (m : Mesh) (opt : SmootherOptions) (vid pid : N) : Equation :=
  let nv := num_verts m in
  let n := normal m pid in
  mk_Equation [(col_x nv vid, vx n); (col_y nv vid, vy n); (col_z nv vid, vz n)]
              (dot n (vert m vid)) (w_regular opt).

(** The warnings of a REGULAR vertex: one per incident polygon whose normal
    has zero length. *)
Definition normal_warnings (m : Mesh) (vid : N) : list string :=
  flat_map (fun pid => if (length_squared (normal m pid) =? 0)%float
                       then ["WARNING: zero length face normal!"%string] else [])
           (adj_v2p m vid).

(** The column [smooth_on_tangent_line] gives the next feature vertex. *)
Definition next_col_t (m : Mesh) (s : Assembly) : N :=
  uint_wrap (uint_add (uint_add (num_verts m) (num_verts m)) (num_verts m)
             + N.of_nat (size (feature_data s))).

(** The shared row counter agrees with the two vectors that grow with it. *)
Definition counters_agree (s : Assembly) : Prop :=
  row s = N.of_nat (length (w s)) /\ length (w s) = length (rhs s).

(** Every row emitted so far has an index that fits a [uint]. *)
Definition rows_fit (s : Assembly) : Prop :=
  N.of_nat (length (w s)) < 2 ^ 32.

(** [s'] is [s] with [k] more rows: the counter and both vectors moved
    together. *)
Definition advanced_by (k : N) (s s' : Assembly) : Prop :=
  row s' = row s + k /\
  N.of_nat (length (w s')) = N.of_nat (length (w s)) + k /\
  N.of_nat (length (rhs s')) = N.of_nat (length (rhs s)) + k.

(** The same, with the wrap-around of the counter: what an assembly
    operation does to the three of them whatever their size. *)
Definition grown_by (k : N) (s s' : Assembly) : Prop :=
  row s' = uint_add (row s) k /\
  N.of_nat (length (w s')) = N.of_nat (length (w s)) + k /\
  N.of_nat (length (rhs s')) = N.of_nat (length (rhs s)) + k.

(** ** Labels and topology

    The marked edges incident to a vertex, and the label their number calls
    for. *)
Definition marked_edges (m : Mesh) (vid : N) : list N :=
  filter (fun eid => marked m eid = true) (adj_v2e m vid).

Definition label_for (marked_count : nat) : vert_label :=
  match marked_count with
  | 0%nat => REGULAR
  | 2%nat => FEATURE
  | _ => CORNER
  end.

(** The number of edges around each vertex fits the [uint] that counts the
    marked ones. *)
Definition degrees_fit (m : Mesh) : bool :=
  forallb (fun vid => N.of_nat (length (adj_v2e m vid)) <? 2 ^ 32)
          (uint_range (num_verts m)).

(** Every vertex carries the label its marked edges call for. *)
Definition labelled (m : Mesh) : Prop :=
  forall vid, vid < num_verts m ->
    label m vid = label_for (length (marked_edges m vid)).

(** Two meshes that differ in vertex positions only. *)
Definition same_topology (m m' : Mesh) : Prop :=
  num_verts m' = num_verts m /\ num_edges m' = num_edges m /\
  label m' = label m /\ marked m' = marked m /\ normal m' = normal m /\
  adj_v2p m' = adj_v2p m /\ adj_v2e m' = adj_v2e m /\
  edge_vert_ids m' = edge_vert_ids m.

(** The FEATURE vertices among [l], in the order of [l]; for the whole
    mesh, in the order the assembly loop meets them. *)
Definition features_among (m : Mesh) (l : list N) : list N :=
  filter (fun vid => label m vid = FEATURE) l.

Definition feature_verts (m : Mesh) : list N :=
  features_among m (uint_range (num_verts m)).

(** ** Size and output of an iteration

    The rows a vertex contributes to the system, by its label. *)
Definition rows_of_vertex (m : Mesh) (vid : N) : N :=
  match label m vid with
  | REGULAR => N.of_nat (length (adj_v2p m vid))
  | FEATURE => 4
  | CORNER => 3
  | UNKNOWN => 0
  end.

Definition vertex_rows (m : Mesh) : N :=
  fold_right N.add 0 (map (rows_of_vertex m) (uint_range (num_verts m))).

(** The two diagnostics of the smoother. *)
Definition is_warning (line : string) : Prop :=
  line = "WARNING: zero length face normal!"%string \/
  line = "WARNING: zero length tangent curve!"%string.

(** A solver that returns one value per column of the matrix. *)
Definition solver_answers `{Collaborators} : Prop :=
  forall A W RHS, exists res,
    solve_weighted_least_squares A W RHS = Some res /\
    length res = N.to_nat (mat_cols A).

(** ** Degenerate and finite vectors

    The zero vector: every component is a zero of the doubles (+0 or -0). *)
Definition zero_vec (v : vec3d) : bool :=
  (vx v =? 0)%float && (vy v =? 0)%float && (vz v =? 0)%float.

(** Two positions coincide when their coordinates compare equal, as [==]
    on doubles does. *)
Definition coincide (a b : vec3d) : bool :=
  (vx a =? vx b)%float && (vy a =? vy b)%float && (vz a =? vz b)%float.

(** A position whose coordinates are numbers: neither infinite nor NaN. *)
Definition finite_vec (v : vec3d) : bool :=
  is_finite (vx v) && is_finite (vy v) && is_finite (vz v).

(** A triplet inside a matrix with [rows] rows and [cols] columns, below the
    first [low] rows. *)
Definition entry_within (low rows cols : N) (e : Entry) : Prop :=
  low <= e_row e /\ e_row e < rows /\ e_col e < cols.

(** ** A small mesh to run the smoother on

    Five vertices and four triangles in the plane [z = 0]; the two edges of
    the segment [v0 v1 v2] are marked:
<<
          v3
        / |  \
      v0--v1--v2        e0 = v0v1 and e1 = v1v2 are marked
        \ |  /
          v4
>>
*)
Module Demo.

Definition pt (x y z : float) : vec3d := mk_vec3d x y z.

Definition fan : Mesh :=
  mk_Mesh 5 8
    (fun v => match v with
              | 0 => pt 0 0 0 | 1 => pt 1 0.25 0 | 2 => pt 2 0 0
              | 3 => pt 1 1 0 | _ => pt 1 (-1) 0
              end)
    (fun _ => UNKNOWN)
    (fun e => match e with 0 | 1 => true | _ => false end)
    (fun _ => pt 0 0 1)
    (fun v => match v with
              | 0 => [0; 2] | 1 => [0; 1; 2; 3] | 2 => [1; 3]
              | 3 => [0; 1] | _ => [2; 3]
              end)
    (fun v => match v with
              | 0 => [0; 2; 5] | 1 => [0; 1; 3; 6] | 2 => [1; 4; 7]
              | 3 => [2; 3; 4] | _ => [5; 6; 7]
              end)
    (fun e => match e with
              | 0 => (0, 1) | 1 => (1, 2) | 2 => (0, 3) | 3 => (1, 3)
              | 4 => (2, 3) | 5 => (0, 4) | 6 => (1, 4) | _ => (2, 4)
              end).

(** The same mesh with [v2] moved onto [v0]: the two feature neighbours of
    [v1] coincide. *)
Definition pinched : Mesh := set_vert fan 2 (vert fan 0).

(** A uniform Laplacian on the three coordinate blocks: per vertex and
    coordinate, minus the valence on the diagonal and 1 for each edge
    neighbour. *)
Definition uniform_laplacian (m : Mesh) (mode : Z) (dim : N) : list Entry :=
  let nv := num_verts m in
  flat_map (fun d =>
    flat_map (fun vid =>
      let r := d * nv + vid in
      mk_Entry r r (- fold_left (fun a _ => a + 1) (adj_v2e m vid) 0)%float
      :: map (fun eid => mk_Entry r (d * nv + vert_opposite_to m eid vid) 1%float)
             (adj_v2e m vid))
      (uint_range nv))
    (uint_range dim).

(** Division by the length, the zero vector left as it is. *)
Definition unit_or_zero (v : vec3d) : vec3d :=
  let len := sqrt (length_squared v) in
  if (len =? 0)%float then v
  else mk_vec3d (vx v / len)%float (vy v / len)%float (vz v / len)%float.

(** A solver stand-in: every unknown gets the value 0.5. *)
Definition half_solver (A : SparseMatrix) (W RHS : list float) : option (list float) :=
  Some (repeat 0.5%float (N.to_nat (mat_cols A))).

#[export] Instance collaborators : Collaborators := {|
  laplacian_matrix_entries := uniform_laplacian;
  normalize := unit_or_zero;
  Octree := list (N * list vec3d);
  octree_new := [];
  build_from_mesh_polys := fun o _ => o;
  add_segment := fun o eid seg => o ++ [(eid, seg)];
  build := fun o => o;
  closest_point := fun _ p => p;
  solve_weighted_least_squares := half_solver
|}.

Definition options (iters : N) : SmootherOptions :=
  mk_SmootherOptions 0 0.125 1 1 1000000 iters false.

(** The variables of an iteration before anything is assembled. *)
Definition start : Assembly := mk_Assembly 0 [] [] [] ∅ [].

(** The system of the first iteration on the labelled mesh [m]. *)
Definition assembled (m : Mesh) : Assembly :=
  match assemble_system (label_features m) (options 1) [iteration_line 0] with
  | Done s => s
  | Abort _ => start
  end.

(** The labelled fan with the label of [v0] overwritten. *)
Definition mislabelled : Mesh := set_label (label_features fan) 0 FEATURE.

(** The fan with the edge [v0 v3] marked too: [v0] and [v1] are FEATURE
    vertices, [v2] and [v3] end the marked line. *)
Definition ridge : Mesh :=
  mk_Mesh (num_verts fan) (num_edges fan) (vert fan) (label fan)
          (fun e => match e with 0 | 1 | 2 => true | _ => false end)
          (normal fan) (adj_v2p fan) (adj_v2e fan) (edge_vert_ids fan).

(** A normalization that clamps the length from below, as
    [len = std::max(length(), eps)] does, with [eps = 2^-17]. *)
Definition clamped_normalize (v : vec3d) : vec3d :=
  let len := sqrt (length_squared v) in
  let len := if (len <? 0x1p-17)%float then 0x1p-17%float else len in
  mk_vec3d (vx v / len)%float (vy v / len)%float (vz v / len)%float.

(** The collaborators with the clamped normalization. *)
Definition clamped : Collaborators := {|
  laplacian_matrix_entries := uniform_laplacian;
  normalize := clamped_normalize;
  Octree := list (N * list vec3d);
  octree_new := [];
  build_from_mesh_polys := fun o _ => o;
  add_segment := fun o eid seg => o ++ [(eid, seg)];
  build := fun o => o;
  closest_point := fun _ p => p;
  solve_weighted_least_squares := half_solver
|}.

(** The fan with [v1] far away on the x axis, [v0] at (1, 1, 0) and [v2] at
    the origin: the tangent direction of [v1] is the diagonal of the xy plane. *)
Definition far : Mesh :=
  set_vert (set_vert (set_vert fan 0 (pt 1 1 0)) 2 (pt 0 0 0))
           1 (pt 10000000000000000 0 0).

(** One iteration on it. *)
Definition far_once : Mesh * list string :=
  match smooth_iter (options 1) octree_new octree_new (label_features far, []) 0 with
  | Done r => r
  | Abort _ => (far, [])
  end.

Definition reprojecting (iters : N) : SmootherOptions :=
  mk_SmootherOptions 0 0.125 1 1 1000000 iters true.

(** Two iterations on the fan, and one on the pinched fan. *)
Definition smoothed : Mesh * list string :=
  match mesh_smoother fan fan (options 2) [] with
  | Done r => r
  | Abort _ => (fan, [])
  end.

Definition pinched_once : Mesh * list string :=
  match smooth_iter (options 1) octree_new octree_new (label_features pinched, []) 0 with
  | Done r => r
  | Abort _ => (pinched, [])
  end.

End Demo.

(** ** Proof automation *)

(** The assembly operations are long chains of [push_back]s: they are run
    by call-by-need reduction of the pushes and of the projections only, which
    leaves the counter arithmetic and the appends as they are written. *)
Ltac run_pushes :=
  lazy beta iota zeta delta
    [incr_row push_w push_rhs push_entry advance_row emit_row emit_rows
     set_feature print print_lines
     row w entries rhs feature_data cout
     List.map fst snd eq_coeffs eq_rhs eq_weight fold_left].

(** Case analysis on every step of a chain of [do]s. *)
Ltac destruct_binds :=
  repeat match goal with
         | |- context [bind ?c _] =>
             let E := fresh "E" in destruct c eqn:E; cbn [bind]; try discriminate
         end.

(** * Properties *)

(** ** Arithmetic of [uint] *)

Lemma uint_wrap_small (x : N) : x < 2 ^ 32 -> uint_wrap x = x.
Proof. intros Hx. unfold uint_wrap. now apply N.mod_small. Qed.

Lemma uint_add_add (a b c : N) : uint_add (uint_add a b) c = uint_add a (b + c).
Proof.
  unfold uint_add, uint_wrap.
  rewrite N.Div0.add_mod_idemp_l. now rewrite N.add_assoc.
Qed.

Lemma uint_add_0_r (a : N) : uint_add a 0 = uint_wrap a.
Proof. unfold uint_add. now rewrite N.add_0_r. Qed.

(** ** Appending rows *)

Lemma emit_row_print (line : string) (s : Assembly) (e : Equation) :
  emit_row (print line s) e = print line (emit_row s e).
Proof. reflexivity. Qed.

Lemma emit_rows_print_lines (eqs : list Equation) (lines : list string) (s : Assembly) :
  emit_rows eqs (print_lines lines s) = print_lines lines (emit_rows eqs s).
Proof.
  revert s. induction lines as [|line lines IH]; intros s; [reflexivity|].
  cbn [print_lines fold_left]. fold (print_lines lines (print line s)).
  rewrite IH. fold (print_lines lines (emit_rows eqs (print line s))).
  f_equal. clear IH. revert s.
  induction eqs as [|e eqs IHe]; intros s; [reflexivity|].
  cbn [emit_rows fold_left]. rewrite emit_row_print. apply IHe.
Qed.

Lemma emit_rows_feature_data (eqs : list Equation) (s : Assembly) :
  feature_data (emit_rows eqs s) = feature_data s.
Proof. revert s. induction eqs as [|e eqs IH]; intros s; [reflexivity|]. cbn. now rewrite IH. Qed.

Lemma emit_rows_cout (eqs : list Equation) (s : Assembly) :
  cout (emit_rows eqs s) = cout s.
Proof. revert s. induction eqs as [|e eqs IH]; intros s; [reflexivity|]. cbn. now rewrite IH. Qed.

Lemma emit_rows_w (eqs : list Equation) (s : Assembly) :
  w (emit_rows eqs s) = w s ++ map eq_weight eqs.
Proof.
  revert s. induction eqs as [|e eqs IH]; intros s; cbn.
  - now rewrite app_nil_r.
  - fold (emit_rows eqs (emit_row s e)). rewrite IH. cbn. now rewrite <- app_assoc.
Qed.

Lemma emit_rows_rhs (eqs : list Equation) (s : Assembly) :
  rhs (emit_rows eqs s) = rhs s ++ map eq_rhs eqs.
Proof.
  revert s. induction eqs as [|e eqs IH]; intros s; cbn.
  - now rewrite app_nil_r.
  - fold (emit_rows eqs (emit_row s e)). rewrite IH. cbn. now rewrite <- app_assoc.
Qed.

Lemma uint_add_lt (a b : N) : uint_add a b < 2 ^ 32.
Proof. unfold uint_add, uint_wrap. apply N.mod_lt. discriminate. Qed.

Lemma emit_rows_row (eqs : list Equation) (s : Assembly) :
  row s < 2 ^ 32 ->
  row (emit_rows eqs s) = uint_add (row s) (N.of_nat (length eqs)).
Proof.
  revert s. induction eqs as [|e eqs IH]; intros s Hs.
  - cbn. now rewrite uint_add_0_r, uint_wrap_small.
  - cbn [emit_rows fold_left]. fold (emit_rows eqs (emit_row s e)).
    rewrite IH by apply uint_add_lt.
    cbn [row emit_row]. rewrite uint_add_add. f_equal. cbn [length]. lia.
Qed.

(** The index of the [k]-th equation of a batch is the counter plus [k],
    as a [uint]. *)
Lemma emit_rows_entries (eqs : list Equation) (s : Assembly) :
  row s < 2 ^ 32 ->
  entries (emit_rows eqs s) =
  entries s ++
  concat (imap (fun k e =>
                  map (fun cv => mk_Entry (uint_add (row s) (N.of_nat k)) (fst cv) (snd cv))
                      (eq_coeffs e)) eqs).
Proof.
  revert s. induction eqs as [|e eqs IH]; intros s Hs.
  - cbn. now rewrite app_nil_r.
  - cbn [emit_rows fold_left]. fold (emit_rows eqs (emit_row s e)).
    rewrite IH by apply uint_add_lt.
    cbn [entries emit_row row imap concat]. rewrite <- app_assoc. f_equal.
    rewrite uint_add_0_r, uint_wrap_small by assumption. f_equal. f_equal.
    apply imap_ext. intros k e' _. cbn.
    rewrite uint_add_add.
    replace (1 + N.of_nat k) with (N.of_nat (S k)) by lia. reflexivity.
Qed.

(** ** The three per-vertex blocks *)

Section VertexBlocks.

Context `{Collaborators}.

Variables (m : Mesh) (opt : SmootherOptions).

Lemma tangent_space_row_emits (vid : N) (s : Assembly) (pid : N) :
  tangent_space_row m vid (w_regular opt) s pid =
  print_lines (if (length_squared (normal m pid) =? 0)%float
               then ["WARNING: zero length face normal!"%string] else [])
              (emit_row s (regular_equation m opt vid pid)).
Proof.
  unfold tangent_space_row, regular_equation.
  destruct (length_squared (normal m pid) =? 0)%float; run_pushes;
    now rewrite <- !app_assoc.
Qed.

Lemma smooth_on_tangent_space_emits (vid : N) (s : Assembly) :
  smooth_on_tangent_space m vid (w_regular opt) s =
  print_lines (normal_warnings m vid)
              (emit_rows (map (regular_equation m opt vid) (adj_v2p m vid)) s).
Proof.
  unfold smooth_on_tangent_space, normal_warnings.
  generalize (adj_v2p m vid) as pids. intros pids. revert s.
  induction pids as [|pid pids IH]; intros s; [reflexivity|].
  cbn [fold_left map flat_map]. rewrite IH, tangent_space_row_emits.
  cbn [emit_rows fold_left]. fold (emit_rows (map (regular_equation m opt vid) pids)).
  rewrite emit_rows_print_lines.
  unfold print_lines. now rewrite fold_left_app.
Qed.

Lemma smooth_on_tangent_line_emits (vid : N) (s : Assembly) (front back : vec3d) :
  marked_nbrs m vid = [front; back] ->
  feature_data s !! vid = None ->
  let dir := normalize (vec_sub front back) in
  smooth_on_tangent_line m vid (w_feature opt) s =
  Done (emit_rows (feature_equations m opt vid dir (next_col_t m s))
          (set_feature vid (dir, next_col_t m s)
             (if (length_squared dir =? 0)%float
              then print "WARNING: zero length tangent curve!" s else s))).
Proof.
  intros Hn Hf dir. unfold smooth_on_tangent_line. rewrite Hn. fold dir.
  destruct (length_squared dir =? 0)%float; cbn [feature_data print]; rewrite Hf;
    unfold feature_equations, emit_rows, next_col_t; run_pushes;
    now rewrite <- !app_assoc.
Qed.

End VertexBlocks.

(** C6.  A CORNER vertex contributes exactly three rows to the system, one
    per coordinate: coefficient 1.0 on the column of that coordinate of the
    vertex, the current value of the coordinate on the right-hand side, the
    corner weight as weight.  No auxiliary unknown is allocated:
    [feature_data] is left as it was. *)
Theorem corner_rows `{Collaborators} (m : Mesh) (opt : SmootherOptions)
  (s : Assembly) (vid : N) :
  label m vid = CORNER ->
  let nv := num_verts m in
  let p := vert m vid in
  let r := row s in
  exists s',
    assemble_vertex m opt s vid = Done s' /\
    entries s' = entries s ++
      [ mk_Entry r (col_x nv vid) 1%float;
        mk_Entry (uint_add r 1) (col_y nv vid) 1%float;
        mk_Entry (uint_add r 2) (col_z nv vid) 1%float ] /\
    rhs s' = rhs s ++ [vx p; vy p; vz p] /\
    w s' = w s ++ [w_corner opt; w_corner opt; w_corner opt] /\
    row s' = uint_add r 3 /\
    feature_data s' = feature_data s /\
    cout s' = cout s.
Proof.
  intros Hl nv p r. unfold assemble_vertex. rewrite Hl.
  eexists. split; [reflexivity|].
  unfold hold_corner. run_pushes. rewrite <- !app_assoc, !uint_add_add.
  repeat split; reflexivity.
Qed.

(** C1.  A FEATURE vertex (two marked incident edges, no parameter
    allocated yet in this iteration) contributes exactly four rows: for each
    coordinate c, coefficient 1.0 on the column of c and [-dir.c] on the t
    column allocated to the vertex, the current value of c on the
    right-hand side and the feature weight; then a row with coefficient 1.0
    on the t column, right-hand side 0 and weight 1.0.  The t column is the
    one recorded for the vertex in [feature_data]. *)
Theorem feature_rows `{Collaborators} (m : Mesh) (opt : SmootherOptions)
  (s : Assembly) (vid : N) (front back : vec3d) :
  label m vid = FEATURE ->
  marked_nbrs m vid = [front; back] ->
  feature_data s !! vid = None ->
  let nv := num_verts m in
  let p := vert m vid in
  let r := row s in
  let dir := normalize (vec_sub front back) in
  exists s' col_t,
    assemble_vertex m opt s vid = Done s' /\
    feature_data s' !! vid = Some (dir, col_t) /\
    entries s' = entries s ++
      [ mk_Entry r (col_x nv vid) 1%float;
        mk_Entry r col_t (- vx dir)%float;
        mk_Entry (uint_add r 1) (col_y nv vid) 1%float;
        mk_Entry (uint_add r 1) col_t (- vy dir)%float;
        mk_Entry (uint_add r 2) (col_z nv vid) 1%float;
        mk_Entry (uint_add r 2) col_t (- vz dir)%float;
        mk_Entry (uint_add r 3) col_t 1%float ] /\
    rhs s' = rhs s ++ [vx p; vy p; vz p; 0%float] /\
    w s' = w s ++ [w_feature opt; w_feature opt; w_feature opt; 1%float] /\
    row s' = uint_add r 4 /\
    cout s' = cout s ++ (if (length_squared dir =? 0)%float
                         then ["WARNING: zero length tangent curve!"%string] else []).
Proof.
  intros Hl Hn Hf nv p r dir. unfold assemble_vertex. rewrite Hl.
  rewrite (smooth_on_tangent_line_emits m opt vid s front back Hn Hf).
  eexists. exists (next_col_t m s). split; [reflexivity|]. fold dir.
  unfold emit_rows, feature_equations.
  destruct (length_squared dir =? 0)%float; run_pushes;
    rewrite <- !app_assoc, !uint_add_add, lookup_insert_eq, ?app_nil_r;
    repeat split; reflexivity.
Qed.

(** A double is a zero, an infinity, NaN or a finite number: the finite ones
    and the zeros are those [is_finite] accepts. *)
Lemma is_finite_cases (x : float) :
  is_finite x = true ->
  (exists b, Prim2SF x = S754_zero b) \/ (exists sg mx ex, Prim2SF x = S754_finite sg mx ex).
Proof.
  unfold is_finite, is_nan, is_infinity.
  rewrite !FloatAxioms.eqb_spec, FloatAxioms.abs_spec.
  change (Prim2SF infinity) with (S754_infinity false).
  destruct (Prim2SF x) as [b|b| |sg mx ex].
  - intros _. left. now exists b.
  - cbn. rewrite orb_true_r. discriminate.
  - cbn. discriminate.
  - intros _. right. now exists sg, mx, ex.
Qed.

(** The difference of two doubles that compare equal is zero, when they
    are numbers. *)
Lemma sub_equal_is_zero (x y : float) :
  is_finite x = true -> (x =? y)%float = true -> (x - y =? 0)%float = true.
Proof.
  intros Hx Hxy. rewrite FloatAxioms.eqb_spec in Hxy.
  rewrite FloatAxioms.eqb_spec, FloatAxioms.sub_spec.
  change (Prim2SF 0) with (S754_zero false).
  destruct (is_finite_cases x Hx) as [(b & Ex) | (sg & mx & ex & Ex)];
    rewrite Ex in *; clear Ex;
    destruct (Prim2SF y) as [b'|b'| |sg' my ey];
    try discriminate;
    try (destruct b, b'; (discriminate || reflexivity));
    try (destruct sg; discriminate).
  - destruct sg'; discriminate.
  - destruct sg, b'; discriminate.
  - assert (E : sg = sg' /\ ex = ey /\ mx = my).
    { unfold SFeqb, SFcompare in Hxy.
      destruct sg, sg'; try discriminate;
        destruct (Z.compare ex ey) eqn:Ez; try discriminate;
        apply Z.compare_eq in Ez;
        destruct (Pos.compare_cont Eq mx my) eqn:Em; try discriminate;
        apply Pos.compare_eq in Em; auto. }
    destruct E as (<- & <- & <-).
    unfold SF64sub, SFsub. rewrite Z.sub_diag. reflexivity.
Qed.

(** The difference of two coinciding positions is the zero vector. *)
Lemma vec_sub_coincide_is_zero (p q : vec3d) :
  finite_vec p = true -> coincide p q = true -> zero_vec (vec_sub p q) = true.
Proof.
  unfold finite_vec, coincide, zero_vec, vec_sub. cbn [vx vy vz].
  intros Hp Hq.
  apply andb_prop in Hp. destruct Hp as (Hp & Hz).
  apply andb_prop in Hp. destruct Hp as (Hx & Hy).
  apply andb_prop in Hq. destruct Hq as (Hq & Ez).
  apply andb_prop in Hq. destruct Hq as (Ex & Ey).
  now rewrite !sub_equal_is_zero.
Qed.

(** C3.  When the two feature neighbours of a FEATURE vertex coincide (their
    coordinates compare equal and are numbers), their difference is the
    zero vector; with a [normalize] that gives a vector of zero length for
    the zero vector, the smoother writes the warning
    "WARNING: zero length tangent curve!" and goes on: the degenerate
    direction is recorded for the vertex and its four rows are emitted with
    it, the call does not abort. *)
Theorem degenerate_tangent_is_reported `{Collaborators} (m : Mesh)
  (opt : SmootherOptions) (s : Assembly) (vid : N) (front back : vec3d) :
  label m vid = FEATURE ->
  marked_nbrs m vid = [front; back] ->
  feature_data s !! vid = None ->
  coincide front back = true ->
  finite_vec front = true ->
  (forall v, zero_vec v = true ->
             (length_squared (normalize v) =? 0)%float = true) ->
  let nv := num_verts m in
  let r := row s in
  let dir := normalize (vec_sub front back) in
  exists s' col_t,
    assemble_vertex m opt s vid = Done s' /\
    cout s' = cout s ++ ["WARNING: zero length tangent curve!"%string] /\
    zero_vec (vec_sub front back) = true /\
    (length_squared dir =? 0)%float = true /\
    feature_data s' !! vid = Some (dir, col_t) /\
    entries s' = entries s ++
      [ mk_Entry r (col_x nv vid) 1%float;
        mk_Entry r col_t (- vx dir)%float;
        mk_Entry (uint_add r 1) (col_y nv vid) 1%float;
        mk_Entry (uint_add r 1) col_t (- vy dir)%float;
        mk_Entry (uint_add r 2) (col_z nv vid) 1%float;
        mk_Entry (uint_add r 2) col_t (- vz dir)%float;
        mk_Entry (uint_add r 3) col_t 1%float ] /\
    row s' = uint_add r 4.
Proof.
  intros Hl Hn Hf Hsame Hfin Hnorm nv r dir.
  assert (Hzero : zero_vec (vec_sub front back) = true)
    by now apply vec_sub_coincide_is_zero.
  assert (Hdeg : (length_squared dir =? 0)%float = true) by (apply Hnorm, Hzero).
  unfold assemble_vertex. rewrite Hl.
  rewrite (smooth_on_tangent_line_emits m opt vid s front back Hn Hf).
  fold dir. rewrite Hdeg.
  eexists. exists (next_col_t m s). split; [reflexivity|].
  destruct s as [r0 ws es bs fd out]. unfold emit_rows, feature_equations.
  run_pushes. rewrite <- !app_assoc, !uint_add_add, lookup_insert_eq.
  repeat split; try reflexivity; assumption.
Qed.

(** C5.  A REGULAR vertex contributes exactly one row per incident polygon,
    in the order of [adj_v2p]: the coefficients are the components of the
    polygon's normal [n] on the three coordinate columns of the vertex, the
    right-hand side is [n . p] for the current position [p], the weight is
    the regular weight. *)
Theorem regular_rows `{Collaborators} (m : Mesh) (opt : SmootherOptions)
  (s : Assembly) (vid : N) :
  label m vid = REGULAR ->
  row s < 2 ^ 32 ->
  let nv := num_verts m in
  let p := vert m vid in
  let pids := adj_v2p m vid in
  exists s',
    assemble_vertex m opt s vid = Done s' /\
    entries s' = entries s ++
      concat (imap (fun k pid =>
                      let n := normal m pid in
                      let r := uint_add (row s) (N.of_nat k) in
                      [ mk_Entry r (col_x nv vid) (vx n);
                        mk_Entry r (col_y nv vid) (vy n);
                        mk_Entry r (col_z nv vid) (vz n) ]) pids) /\
    rhs s' = rhs s ++ map (fun pid => dot (normal m pid) p) pids /\
    w s' = w s ++ map (fun _ => w_regular opt) pids /\
    row s' = uint_add (row s) (N.of_nat (length pids)) /\
    feature_data s' = feature_data s /\
    cout s' = cout s ++ normal_warnings m vid.
Proof.
  intros Hl Hr nv p pids. unfold assemble_vertex. rewrite Hl.
  eexists. split; [reflexivity|].
  rewrite smooth_on_tangent_space_emits. fold pids.
  assert (Hpl : forall lines eqs,
             print_lines lines (emit_rows eqs s) =
             mk_Assembly (row (emit_rows eqs s)) (w (emit_rows eqs s))
                         (entries (emit_rows eqs s)) (rhs (emit_rows eqs s))
                         (feature_data (emit_rows eqs s))
                         (cout (emit_rows eqs s) ++ lines)).
  { intros lines eqs. generalize (emit_rows eqs s) as t.
    induction lines as [|l lines IH]; intros t.
    - destruct t; cbn. now rewrite app_nil_r.
    - cbn [print_lines fold_left]. fold (print_lines lines (print l t)).
      rewrite IH. unfold print; cbn. now rewrite <- app_assoc. }
  rewrite Hpl. cbn [entries rhs w row feature_data cout].
  rewrite emit_rows_entries, emit_rows_rhs, emit_rows_w, emit_rows_row,
    emit_rows_feature_data, emit_rows_cout by assumption.
  rewrite !map_map, length_map, imap_fmap.
  repeat split; reflexivity.
Qed.

(** ** The row counter and the two vectors *)

Lemma grown_by_trans (j k : N) (s1 s2 s3 : Assembly) :
  grown_by j s1 s2 -> grown_by k s2 s3 -> grown_by (j + k) s1 s3.
Proof.
  intros (Hr1 & Hw1 & Hb1) (Hr2 & Hw2 & Hb2). repeat split.
  - now rewrite Hr2, Hr1, uint_add_add.
  - lia.
  - lia.
Qed.

Lemma grown_by_exact (k : N) (s s' : Assembly) :
  grown_by k s s' -> counters_agree s -> rows_fit s' ->
  advanced_by k s s' /\ counters_agree s'.
Proof.
  intros (Hr & Hw & Hb) (Hrow & Hlen) Hfit. unfold rows_fit in Hfit.
  assert (Hr' : row s' = row s + k).
  { rewrite Hr. unfold uint_add. apply uint_wrap_small. lia. }
  repeat split; try assumption; try lia.
Qed.

Lemma emit_rows_grown (eqs : list Equation) (s : Assembly) :
  row s < 2 ^ 32 -> grown_by (N.of_nat (length eqs)) s (emit_rows eqs s).
Proof.
  intros Hs. repeat split.
  - now apply emit_rows_row.
  - rewrite emit_rows_w, length_app, length_map. lia.
  - rewrite emit_rows_rhs, length_app, length_map. lia.
Qed.

Lemma print_lines_fields (lines : list string) (s : Assembly) :
  row (print_lines lines s) = row s /\
  w (print_lines lines s) = w s /\
  entries (print_lines lines s) = entries s /\
  rhs (print_lines lines s) = rhs s /\
  feature_data (print_lines lines s) = feature_data s.
Proof.
  revert s. induction lines as [|l lines IH]; intros s; [now repeat split|].
  cbn [print_lines fold_left]. fold (print_lines lines (print l s)).
  destruct (IH (print l s)) as (-> & -> & -> & -> & ->). now repeat split.
Qed.

Section Counters.

Context `{Collaborators}.

Variables (m : Mesh) (opt : SmootherOptions).

Lemma laplacian_term_grown (mode : Z) (weight : float) (s : Assembly) :
  grown_by (uint_mul (num_verts m) 3) s (laplacian_term m mode weight s).
Proof.
  unfold laplacian_term.
  set (s1 := fold_left _ (laplacian_matrix_entries m mode 3) s).
  assert (H1 : row s1 = row s /\ w s1 = w s /\ rhs s1 = rhs s).
  { subst s1. generalize (laplacian_matrix_entries m mode 3) as L. intros L.
    revert s. induction L as [|e L IH]; intros s; [now repeat split|].
    cbn [fold_left]. destruct (IH (push_entry e s)) as (-> & -> & ->). now repeat split. }
  destruct H1 as (Hr & Hw & Hb).
  set (k := uint_mul (num_verts m) 3).
  rewrite N2Nat.inj_iter.
  assert (H2 : forall n,
             let s2 := Nat.iter n (fun s => push_rhs 0%float (push_w weight s)) s1 in
             row s2 = row s1 /\
             length (w s2) = (length (w s1) + n)%nat /\
             length (rhs s2) = (length (rhs s1) + n)%nat).
  { induction n as [|n IH]; [cbn; repeat split; lia|].
    cbn zeta in *. destruct IH as (IHr & IHw & IHb). rewrite !Nat.iter_succ.
    cbn [row w rhs push_rhs push_w].
    rewrite !length_app, IHw, IHb. cbn [length]. repeat split; [assumption|lia|lia]. }
  destruct (H2 (N.to_nat k)) as (H2r & H2w & H2b).
  unfold advance_row. repeat split; cbn [row w rhs].
  - now rewrite H2r, Hr.
  - rewrite H2w, Hw. lia.
  - rewrite H2b, Hb. lia.
Qed.

Lemma smooth_on_tangent_space_grown (vid : N) (s : Assembly) :
  row s < 2 ^ 32 ->
  grown_by (N.of_nat (length (adj_v2p m vid))) s
           (smooth_on_tangent_space m vid (w_regular opt) s).
Proof.
  intros Hs. rewrite smooth_on_tangent_space_emits.
  pose proof (emit_rows_grown (map (regular_equation m opt vid) (adj_v2p m vid)) s Hs)
    as (Hr & Hw & Hb).
  rewrite length_map in Hr, Hw, Hb.
  destruct (print_lines_fields (normal_warnings m vid)
              (emit_rows (map (regular_equation m opt vid) (adj_v2p m vid)) s))
    as (Pr & Pw & _ & Pb & _).
  unfold grown_by. now rewrite Pr, Pw, Pb.
Qed.

Lemma smooth_on_tangent_line_grown (vid : N) (s s' : Assembly) :
  smooth_on_tangent_line m vid (w_feature opt) s = Done s' -> grown_by 4 s s'.
Proof.
  unfold smooth_on_tangent_line.
  destruct (marked_nbrs m vid) as [|front [|back [|? ?]]]; try discriminate.
  set (dir := normalize (vec_sub front back)).
  destruct s as [r ws es bs fd out].
  destruct (length_squared dir =? 0)%float; cbn [feature_data print];
    (destruct (fd !! vid); [discriminate|]);
    intros [= <-]; unfold grown_by; run_pushes;
    rewrite !length_app, !uint_add_add; cbn [length];
    repeat split; try reflexivity; lia.
Qed.

Lemma hold_corner_grown (vid : N) (s : Assembly) :
  grown_by 3 s (hold_corner m vid (w_corner opt) s).
Proof.
  destruct s as [r ws es bs fd out].
  unfold hold_corner, grown_by. run_pushes. rewrite !length_app, !uint_add_add.
  cbn [length]. repeat split; try reflexivity; lia.
Qed.

Lemma assemble_vertex_grown (vid : N) (s s' : Assembly) :
  row s < 2 ^ 32 ->
  assemble_vertex m opt s vid = Done s' ->
  exists k, grown_by k s s'.
Proof.
  intros Hs. unfold assemble_vertex. destruct (label m vid).
  - intros [= <-]. eexists. now apply smooth_on_tangent_space_grown.
  - intros Hd. eexists. apply (smooth_on_tangent_line_grown _ _ _ Hd).
  - intros [= <-]. eexists. apply hold_corner_grown.
  - discriminate.
Qed.

Lemma grown_by_row_lt (k : N) (s s' : Assembly) : grown_by k s s' -> row s' < 2 ^ 32.
Proof. intros (-> & _). apply uint_add_lt. Qed.

Lemma assemble_loop_grown (l : list N) (s s' : Assembly) :
  row s < 2 ^ 32 ->
  for_each (assemble_vertex m opt) l s = Done s' ->
  exists k, grown_by k s s'.
Proof.
  revert s. induction l as [|vid l IH]; intros s Hs.
  - intros [= <-]. exists 0. unfold grown_by.
    rewrite uint_add_0_r, uint_wrap_small by assumption. repeat split; lia.
  - cbn [for_each]. destruct (assemble_vertex m opt s vid) as [s1|f] eqn:E1; [|discriminate].
    cbn [bind]. intros Hl.
    destruct (assemble_vertex_grown vid s s1 Hs E1) as (j & Hj).
    destruct (IH s1 (grown_by_row_lt _ _ _ Hj) Hl) as (k & Hk).
    exists (j + k). eapply grown_by_trans; eassumption.
Qed.

Lemma assemble_system_grown (out : list string) (s : Assembly) :
  assemble_system m opt out = Done s ->
  exists k, grown_by k (mk_Assembly 0 [] [] [] ∅ out) s.
Proof.
  unfold assemble_system. intros Hs.
  pose proof (laplacian_term_grown (laplacian_mode opt) (w_laplace opt)
                (mk_Assembly 0 [] [] [] ∅ out)) as Hl.
  destruct (assemble_loop_grown _ _ _ (grown_by_row_lt _ _ _ Hl) Hs) as (k & Hk).
  eexists. eapply grown_by_trans; eassumption.
Qed.

End Counters.

(** C10.  Each of the four assembly operations keeps the shared row counter
    equal to the length of the weight vector and to the length of the
    right-hand side: the three of them move together, by the number of rows
    the operation emits (the [extra_rows] of the Laplacian block, one row
    per incident polygon, four rows, three rows), as long as the row indices
    fit the [uint] counter.  Hence, when the system is handed to the solver,
    the row dimension of the matrix, the length of W and the length of RHS
    are equal. *)
Theorem counters_move_together `{Collaborators} (m : Mesh) (opt : SmootherOptions)
  (vid : N) (s : Assembly) :
  counters_agree s ->
  (let s' := laplacian_term m (laplacian_mode opt) (w_laplace opt) s in
   rows_fit s' ->
   advanced_by (uint_mul (num_verts m) 3) s s' /\ counters_agree s') /\
  (let s' := smooth_on_tangent_space m vid (w_regular opt) s in
   rows_fit s' ->
   advanced_by (N.of_nat (length (adj_v2p m vid))) s s' /\ counters_agree s') /\
  (forall s', smooth_on_tangent_line m vid (w_feature opt) s = Done s' ->
   rows_fit s' ->
   advanced_by 4 s s' /\ counters_agree s') /\
  (let s' := hold_corner m vid (w_corner opt) s in
   rows_fit s' ->
   advanced_by 3 s s' /\ counters_agree s') /\
  (forall out s', assemble_system m opt out = Done s' ->
   rows_fit s' ->
   mat_rows (system_matrix m s') = N.of_nat (length (w s')) /\
   length (w s') = length (rhs s')).
Proof.
  intros Hs. split; [|split; [|split; [|split]]].
  - intros s' Hfit. apply (grown_by_exact _ s); [apply laplacian_term_grown|assumption..].
  - intros s' Hfit. apply (grown_by_exact _ s); try assumption.
    apply smooth_on_tangent_space_grown.
    revert Hfit. subst s'. rewrite smooth_on_tangent_space_emits. unfold rows_fit.
    destruct (print_lines_fields (normal_warnings m vid)
                (emit_rows (map (regular_equation m opt vid) (adj_v2p m vid)) s))
      as (_ & -> & _).
    rewrite emit_rows_w, length_app. destruct Hs as (-> & _). lia.
  - intros s' Hd Hfit.
    apply (grown_by_exact _ s); [eapply smooth_on_tangent_line_grown|..]; eassumption.
  - intros s' Hfit. apply (grown_by_exact _ s); [apply hold_corner_grown|assumption..].
  - intros out s' Hd Hfit.
    destruct (assemble_system_grown m opt out s' Hd) as (k & Hk).
    destruct (grown_by_exact _ _ _ Hk) as (_ & Ha & Hb);
      [split; reflexivity|assumption|].
    split; assumption.
Qed.

(** ** Classification *)

Lemma in_uint_range (n vid : N) : In vid (uint_range n) <-> vid < n.
Proof.
  unfold uint_range. rewrite in_map_iff. split.
  - intros (k & <- & Hk). apply in_seq in Hk. lia.
  - intros Hlt. exists (N.to_nat vid). split; [apply N2Nat.id|].
    apply in_seq. lia.
Qed.

Lemma NoDup_uint_range (n : N) : List.NoDup (uint_range n).
Proof.
  unfold uint_range. apply Finite.Injective_map_NoDup.
  - intros a b Hab. now apply Nat2N.inj.
  - apply seq_NoDup.
Qed.

Lemma count_marked_wraps (m : Mesh) (vid : N) :
  count_marked m vid = uint_wrap (N.of_nat (length (marked_edges m vid))).
Proof.
  unfold count_marked, marked_edges.
  assert (Hgen : forall l acc,
             acc < 2 ^ 32 ->
             fold_left (fun count eid => if marked m eid then uint_add count 1 else count) l acc
             = uint_wrap (acc + N.of_nat (length (filter (fun eid => marked m eid = true) l)))).
  { induction l as [|eid l IH]; intros acc Hacc.
    - cbn. rewrite N.add_0_r. symmetry. now apply uint_wrap_small.
    - cbn [fold_left]. destruct (marked m eid) eqn:E.
      + rewrite filter_cons_True by assumption. rewrite IH by apply uint_add_lt.
        cbn [length]. etransitivity; [apply (uint_add_add acc 1)|].
        unfold uint_add. f_equal. lia.
      + rewrite filter_cons_False by congruence. now apply IH. }
  now rewrite Hgen.
Qed.

Lemma length_marked_edges (m : Mesh) (vid : N) :
  (length (marked_edges m vid) <= length (adj_v2e m vid))%nat.
Proof. unfold marked_edges. apply length_filter. Qed.

Lemma degrees_fit_spec (m : Mesh) (vid : N) :
  degrees_fit m = true -> vid < num_verts m ->
  N.of_nat (length (adj_v2e m vid)) < 2 ^ 32.
Proof.
  unfold degrees_fit. rewrite forallb_forall. intros Hall Hv.
  apply N.ltb_lt, Hall, in_uint_range, Hv.
Qed.

Lemma label_of_count_label_for (k : nat) :
  N.of_nat k < 2 ^ 32 ->
  label_of_count (uint_wrap (N.of_nat k)) = label_for k.
Proof.
  intros Hk. rewrite uint_wrap_small by assumption.
  destruct k as [|[|[|k]]]; try reflexivity.
  unfold label_of_count, label_for.
  destruct (N.of_nat (S (S (S k)))) as [|[p|p|]] eqn:E; try reflexivity; try lia.
  destruct p; try reflexivity; lia.
Qed.

Lemma label_loop_topology (l : list N) (m : Mesh) :
  let m' := fold_left label_vertex l m in
  num_verts m' = num_verts m /\ num_edges m' = num_edges m /\
  vert m' = vert m /\ marked m' = marked m /\ normal m' = normal m /\
  adj_v2p m' = adj_v2p m /\ adj_v2e m' = adj_v2e m /\
  edge_vert_ids m' = edge_vert_ids m.
Proof.
  revert m. induction l as [|vid l IH]; intros m; [cbn; now repeat split|].
  cbn [fold_left]. specialize (IH (label_vertex m vid)). cbn zeta in *.
  destruct IH as (-> & -> & -> & -> & -> & -> & -> & ->). now repeat split.
Qed.

Lemma label_loop_label (l : list N) (m : Mesh) (vid : N) :
  label (fold_left label_vertex l m) vid =
  if In_dec N.eq_dec vid l then label_of_count (count_marked m vid) else label m vid.
Proof.
  revert m. induction l as [|x l IH]; intros m; [reflexivity|].
  cbn [fold_left]. rewrite IH.
  change (count_marked (label_vertex m x) vid) with (count_marked m vid).
  destruct (In_dec N.eq_dec vid l) as [Hin|Hnin];
    destruct (In_dec N.eq_dec vid (x :: l)) as [Hin'|Hnin']; try reflexivity.
  - exfalso. apply Hnin'. now right.
  - destruct Hin' as [->|Hin']; [|contradiction].
    unfold label_vertex, set_label. cbn [label]. now rewrite N.eqb_refl.
  - unfold label_vertex, set_label. cbn [label].
    destruct (N.eqb_spec vid x) as [->|Hne]; [|reflexivity].
    exfalso. apply Hnin'. now left.
Qed.

Lemma label_features_topology (m : Mesh) :
  let m' := label_features m in
  num_verts m' = num_verts m /\ num_edges m' = num_edges m /\
  vert m' = vert m /\ marked m' = marked m /\ normal m' = normal m /\
  adj_v2p m' = adj_v2p m /\ adj_v2e m' = adj_v2e m /\
  edge_vert_ids m' = edge_vert_ids m.
Proof. apply label_loop_topology. Qed.

Lemma label_features_label (m : Mesh) (vid : N) :
  vid < num_verts m ->
  label (label_features m) vid = label_of_count (count_marked m vid).
Proof.
  intros Hv. unfold label_features. rewrite label_loop_label.
  destruct (In_dec N.eq_dec vid (uint_range (num_verts m))) as [_|Hn]; [reflexivity|].
  exfalso. apply Hn, in_uint_range, Hv.
Qed.

Lemma label_features_label_for (m : Mesh) (vid : N) :
  degrees_fit m = true -> vid < num_verts m ->
  label (label_features m) vid = label_for (length (marked_edges m vid)).
Proof.
  intros Hfit Hv. rewrite label_features_label, count_marked_wraps by assumption.
  apply label_of_count_label_for.
  pose proof (degrees_fit_spec m vid Hfit Hv). pose proof (length_marked_edges m vid). lia.
Qed.

Lemma label_features_labelled (m : Mesh) :
  degrees_fit m = true -> labelled (label_features m).
Proof.
  intros Hfit vid Hv.
  destruct (label_features_topology m) as (Hnv & _ & _ & Hmk & _ & _ & Hve & _).
  rewrite Hnv in Hv. unfold marked_edges. rewrite Hmk, Hve.
  now apply label_features_label_for.
Qed.

(** ** What an iteration leaves alone *)

Lemma same_topology_refl (m : Mesh) : same_topology m m.
Proof. now repeat split. Qed.

Lemma same_topology_trans (m1 m2 m3 : Mesh) :
  same_topology m1 m2 -> same_topology m2 m3 -> same_topology m1 m3.
Proof.
  intros (A1 & A2 & A3 & A4 & A5 & A6 & A7 & A8) (B1 & B2 & B3 & B4 & B5 & B6 & B7 & B8).
  repeat split; congruence.
Qed.

Lemma set_vert_same_topology (m : Mesh) (vid : N) (p : vec3d) :
  same_topology m (set_vert m vid p).
Proof. now repeat split. Qed.

Lemma set_vert_other (m : Mesh) (vid v : N) (p : vec3d) :
  v <> vid -> vert (set_vert m vid p) v = vert m v.
Proof. intros Hne. cbn. destruct (N.eqb_spec v vid); [contradiction|reflexivity]. Qed.

Lemma set_vert_same (m : Mesh) (vid : N) (p : vec3d) :
  vert (set_vert m vid p) vid = p.
Proof. cbn. now rewrite N.eqb_refl. Qed.

Section Frames.

Context `{Collaborators}.

Variables (opt : SmootherOptions) (ref_srf ref_feat : Octree).

Lemma update_vertex_frame (fd : gmap N (vec3d * N)) (res : list float) (nv : N)
  (m m' : Mesh) (vid : N) :
  update_vertex opt ref_srf ref_feat fd res nv m vid = Done m' ->
  same_topology m m' /\ forall v, v <> vid -> vert m' v = vert m v.
Proof.
  unfold update_vertex. destruct (label m vid); destruct_binds; intros [= <-];
    (split; [apply set_vert_same_topology|intros v Hv; now apply set_vert_other]).
Qed.

Lemma update_loop_frame (fd : gmap N (vec3d * N)) (res : list float) (nv : N)
  (l : list N) (m m' : Mesh) :
  for_each (update_vertex opt ref_srf ref_feat fd res nv) l m = Done m' ->
  same_topology m m' /\ forall v, ~ In v l -> vert m' v = vert m v.
Proof.
  revert m. induction l as [|x l IH]; intros m.
  - intros [= <-]. split; [apply same_topology_refl|reflexivity].
  - cbn [for_each]. destruct_binds. intros Hl.
    destruct (update_vertex_frame _ _ _ _ _ _ E) as (T1 & V1).
    destruct (IH _ Hl) as (T2 & V2). split.
    + eapply same_topology_trans; eassumption.
    + intros v Hv. rewrite V2, V1; [reflexivity| |]; intros ?; apply Hv; [now left|now right].
Qed.

Lemma smooth_iter_frame (m m' : Mesh) (out out' : list string) (i : N) :
  smooth_iter opt ref_srf ref_feat (m, out) i = Done (m', out') ->
  same_topology m m'.
Proof.
  unfold smooth_iter. destruct_binds. intros [= <- _].
  eapply update_loop_frame; eassumption.
Qed.

Lemma iterations_frame (l : list N) (m m' : Mesh) (out out' : list string) :
  for_each (smooth_iter opt ref_srf ref_feat) l (m, out) = Done (m', out') ->
  same_topology m m'.
Proof.
  revert m out. induction l as [|i l IH]; intros m out.
  - intros [= <- _]. apply same_topology_refl.
  - cbn [for_each]. destruct_binds. destruct a as [m1 out1]. intros Hl.
    eapply same_topology_trans; [eapply smooth_iter_frame; eassumption|].
    eapply IH; eassumption.
Qed.

End Frames.

(** C2.  [label_features] gives every vertex of the mesh the label REGULAR
    when it has no marked incident edge, FEATURE when it has exactly two,
    CORNER for any other number (one, three or more),
    the number of incident edges fitting the [uint] that counts them.
    The classification runs once, before the loop: [mesh_smoother] is the
    loop of [smooth_iter] started on the labelled mesh, no pass of the loop
    changes a label whatever the labels are, and the labels at the end of
    the call are those [label_features] assigned. *)
Theorem classification_once `{Collaborators} (m : Mesh) :
  degrees_fit m = true ->
  (forall vid, vid < num_verts m ->
     label (label_features m) vid =
     match length (marked_edges m vid) with
     | 0%nat => REGULAR
     | 2%nat => FEATURE
     | _ => CORNER
     end) /\
  (forall target opt out,
     mesh_smoother m target opt out =
     for_each (smooth_iter opt (fst (make_octrees m target opt))
                               (snd (make_octrees m target opt)))
              (uint_range (n_iters opt)) (label_features m, out)) /\
  (forall opt ref_srf ref_feat m1 out1 i m2 out2,
     smooth_iter opt ref_srf ref_feat (m1, out1) i = Done (m2, out2) ->
     label m2 = label m1) /\
  (forall target opt out m' out',
     mesh_smoother m target opt out = Done (m', out') ->
     label m' = label (label_features m)).
Proof.
  intros Hfit.
  assert (Hms : forall target opt out,
     mesh_smoother m target opt out =
     for_each (smooth_iter opt (fst (make_octrees m target opt))
                               (snd (make_octrees m target opt)))
              (uint_range (n_iters opt)) (label_features m, out)).
  { intros target opt out. unfold mesh_smoother.
    now destruct (make_octrees m target opt). }
  split; [|split; [|split]].
  - intros vid Hv. now apply label_features_label_for.
  - exact Hms.
  - intros opt ref_srf ref_feat m1 out1 i m2 out2 Hi.
    apply smooth_iter_frame in Hi. apply Hi.
  - intros target opt out m' out'. rewrite Hms. intros Hd.
    apply iterations_frame in Hd. apply Hd.
Qed.

(** C7.  With [n_iters = 0] the call completes, writes nothing, and returns
    the mesh with every vertex position equal to its input value: the mesh
    it returns is the input with the labels of [label_features], all the
    rest (positions, counts, marks, normals, adjacencies) untouched. *)
Theorem zero_iterations_keep_positions `{Collaborators} (m target : Mesh)
  (opt : SmootherOptions) (out : list string) :
  n_iters opt = 0 ->
  exists m',
    mesh_smoother m target opt out = Done (m', out) /\
    m' = label_features m /\
    vert m' = vert m /\
    num_verts m' = num_verts m /\ num_edges m' = num_edges m /\
    marked m' = marked m /\ normal m' = normal m /\
    adj_v2p m' = adj_v2p m /\ adj_v2e m' = adj_v2e m /\
    edge_vert_ids m' = edge_vert_ids m.
Proof.
  intros Hn. exists (label_features m). split.
  - unfold mesh_smoother. destruct (make_octrees m target opt). now rewrite Hn.
  - destruct (label_features_topology m) as (A1 & A2 & A3 & A4 & A5 & A6 & A7 & A8).
    now repeat split.
Qed.

(** ** The feature parameters of an iteration *)

Section FeatureColumns.

Context `{Collaborators}.

Variables (m : Mesh) (opt : SmootherOptions).

(** What one pass of the assembly loop does to [feature_data]. *)
Lemma assemble_vertex_feature_data (vid : N) (s s' : Assembly) :
  assemble_vertex m opt s vid = Done s' ->
  (label m vid = FEATURE /\ feature_data s !! vid = None /\
   exists dir, feature_data s' = <[vid := (dir, next_col_t m s)]> (feature_data s)) \/
  (label m vid <> FEATURE /\ label m vid <> UNKNOWN /\
   feature_data s' = feature_data s).
Proof.
  unfold assemble_vertex. destruct (label m vid) eqn:El.
  - intros [= <-]. right. repeat split; try discriminate.
    rewrite smooth_on_tangent_space_emits.
    destruct (print_lines_fields (normal_warnings m vid)
                (emit_rows (map (regular_equation m opt vid) (adj_v2p m vid)) s))
      as (_ & _ & _ & _ & ->).
    apply emit_rows_feature_data.
  - intros Hd. left. split; [reflexivity|].
    unfold smooth_on_tangent_line in Hd.
    destruct (marked_nbrs m vid) as [|front [|back [|? ?]]]; try discriminate.
    set (dir := normalize (vec_sub front back)) in *.
    destruct s as [r ws es bs fd out].
    destruct (length_squared dir =? 0)%float; cbn [feature_data print] in Hd |- *;
      (destruct (fd !! vid) eqn:Ef; [discriminate|]);
      (split; [reflexivity|]); exists dir; injection Hd as <-;
      unfold next_col_t; run_pushes; reflexivity.
  - intros [= <-]. right. repeat split; discriminate.
  - discriminate.
Qed.

Lemma assemble_loop_feature_data (l : list N) (s s' : Assembly) :
  for_each (assemble_vertex m opt) l s = Done s' ->
  let F := features_among m l in
  let c3 := uint_add (uint_add (num_verts m) (num_verts m)) (num_verts m) in
  size (feature_data s') = (size (feature_data s) + length F)%nat /\
  (forall k d, feature_data s !! k = Some d -> feature_data s' !! k = Some d) /\
  (forall j vid, F !! j = Some vid ->
     exists dir, feature_data s' !! vid =
                 Some (dir, uint_wrap (c3 + N.of_nat (size (feature_data s) + j)))) /\
  (forall k d, feature_data s' !! k = Some d ->
     feature_data s !! k = Some d \/ In k F) /\
  (forall vid, In vid l -> label m vid <> UNKNOWN).
Proof.
  revert s. induction l as [|x l IH]; intros s.
  - intros [= <-]. cbn. repeat split; auto.
    all: try solve [intros j vid Hj; discriminate | intros vid []].
  - cbn [for_each]. destruct (assemble_vertex m opt s x) as [s1|] eqn:E1; [|discriminate].
    cbn [bind]. intros Hl. specialize (IH s1 Hl). cbn zeta in IH.
    destruct IH as (IHsz & IHkeep & IHcol & IHkeys & IHlab).
    unfold features_among in *.
    destruct (assemble_vertex_feature_data x s s1 E1)
      as [(Hlab & Hfresh & dir & Hfd) | (Hlab & Hunk & Hfd)].
    + rewrite filter_cons_True by assumption. cbn [length].
      assert (Hsz1 : size (feature_data s1) = S (size (feature_data s)))
        by (rewrite Hfd; now apply map_size_insert_None).
      repeat split.
      * lia.
      * intros k d Hk. apply IHkeep. rewrite Hfd.
        rewrite lookup_insert_ne; [assumption|]. intros ->. congruence.
      * intros [|j] vid Hj.
        -- injection Hj as <-. exists dir. apply IHkeep.
           rewrite Hfd, lookup_insert_eq. unfold next_col_t.
           now rewrite Nat.add_0_r.
        -- destruct (IHcol j vid Hj) as (d & Hd). exists d. rewrite Hd.
           do 3 f_equal. lia.
      * intros k d Hk. destruct (IHkeys k d Hk) as [Hk1 | Hin]; [|right; now right].
        rewrite Hfd in Hk1. destruct (decide (x = k)) as [->|Hne].
        -- right. now left.
        -- rewrite lookup_insert_ne in Hk1 by assumption. now left.
      * intros vid [<- | Hin]; [congruence|now apply IHlab].
    + rewrite filter_cons_False by assumption. rewrite Hfd in *.
      repeat split; try assumption.
      intros vid [<- | Hin]; [assumption|now apply IHlab].
Qed.

End FeatureColumns.

Lemma laplacian_term_feature_data `{Collaborators} (m : Mesh) (mode : Z)
  (weight : float) (s : Assembly) :
  feature_data (laplacian_term m mode weight s) = feature_data s.
Proof.
  unfold laplacian_term, advance_row. cbn [feature_data].
  rewrite N2Nat.inj_iter.
  generalize (N.to_nat (uint_mul (num_verts m) 3)) as n.
  induction n as [|n IH]; cbn [Nat.iter].
  - generalize (laplacian_matrix_entries m mode 3) as L. intros L. revert s.
    induction L as [|e L IHL]; intros s; [reflexivity|].
    cbn [fold_left]. now rewrite IHL.
  - exact IH.
Qed.

Lemma coordinate_columns (nv vid : N) :
  3 * nv < 2 ^ 32 -> vid < nv ->
  col_x nv vid = vid /\ col_y nv vid = nv + vid /\ col_z nv vid = 2 * nv + vid /\
  col_x nv vid < 3 * nv /\ col_y nv vid < 3 * nv /\ col_z nv vid < 3 * nv.
Proof.
  intros Hnv Hv. unfold col_x, col_y, col_z, uint_add.
  rewrite (uint_wrap_small (nv + nv)) by lia.
  rewrite !uint_wrap_small by lia. lia.
Qed.

(** The feature parameters at the end of the assembly of an iteration, the
    wrap-around of the column arithmetic left in place. *)
Lemma assemble_system_feature_data `{Collaborators} (m : Mesh) (opt : SmootherOptions)
  (out : list string) (s : Assembly) :
  assemble_system m opt out = Done s ->
  let c3 := uint_add (uint_add (num_verts m) (num_verts m)) (num_verts m) in
  size (feature_data s) = length (feature_verts m) /\
  (forall j vid, feature_verts m !! j = Some vid ->
     exists dir, feature_data s !! vid = Some (dir, uint_wrap (c3 + N.of_nat j))) /\
  (forall vid d, feature_data s !! vid = Some d -> In vid (feature_verts m)) /\
  (forall vid, vid < num_verts m -> label m vid <> UNKNOWN).
Proof.
  intros Hs c3. unfold assemble_system in Hs.
  pose proof (assemble_loop_feature_data m opt _ _ _ Hs) as Hloop. cbn zeta in Hloop.
  rewrite laplacian_term_feature_data in Hloop. cbn [feature_data] in Hloop.
  rewrite map_size_empty in Hloop. fold (feature_verts m) in Hloop.
  destruct Hloop as (Hsz & _ & Hcol & Hkeys & Hknown).
  split; [exact Hsz|split; [exact Hcol|split]].
  - intros vid d Hd. destruct (Hkeys vid d Hd) as [He | Hin]; [|assumption].
    rewrite lookup_empty in He. discriminate.
  - intros vid Hv. now apply Hknown, in_uint_range.
Qed.

(** C4.  The columns of the system of an iteration, when they fit a [uint]:
    vertex [vid] has column [vid] for x, [|V|+vid] for y and [2|V|+vid] for
    z, all below [3|V|]; the FEATURE vertices get one more column each, the
    [j]-th of them in the order of the assembly loop the column [3|V|+j],
    and no other vertex gets one; the matrix handed to the solver has
    [3|V|] columns plus one per FEATURE vertex. *)
Theorem column_layout `{Collaborators} (m : Mesh) (opt : SmootherOptions)
  (out : list string) (s : Assembly) :
  assemble_system m opt out = Done s ->
  3 * num_verts m + N.of_nat (length (feature_verts m)) < 2 ^ 32 ->
  let nv := num_verts m in
  (forall vid, vid < nv ->
     col_x nv vid = vid /\ col_y nv vid = nv + vid /\ col_z nv vid = 2 * nv + vid /\
     col_x nv vid < 3 * nv /\ col_y nv vid < 3 * nv /\ col_z nv vid < 3 * nv) /\
  (forall j vid, feature_verts m !! j = Some vid ->
     exists dir, feature_data s !! vid = Some (dir, 3 * nv + N.of_nat j)) /\
  (forall vid d, feature_data s !! vid = Some d -> In vid (feature_verts m)) /\
  mat_cols (system_matrix m s) = 3 * nv + N.of_nat (length (feature_verts m)).
Proof.
  intros Hs Hfit nv.
  destruct (assemble_system_feature_data m opt out s Hs) as (Hsz & Hcol & Hkeys & _).
  fold nv in Hcol.
  assert (Hc3 : uint_add (uint_add nv nv) nv = 3 * nv).
  { unfold uint_add. rewrite (uint_wrap_small (nv + nv)) by lia.
    rewrite uint_wrap_small by lia. lia. }
  split; [|split; [|split]].
  - intros vid Hv. apply coordinate_columns; [lia|assumption].
  - intros j vid Hj. destruct (Hcol j vid Hj) as (dir & Hd). exists dir.
    rewrite Hd, Hc3. apply lookup_lt_Some in Hj.
    rewrite uint_wrap_small by lia. reflexivity.
  - exact Hkeys.
  - unfold system_matrix. cbn [mat_cols]. rewrite Hsz. fold nv.
    unfold uint_mul. rewrite uint_wrap_small by lia. lia.
Qed.

(** ** Labels that match the marked edges *)

Lemma label_for_feature (k : nat) : label_for k = FEATURE -> k = 2%nat.
Proof. destruct k as [|[|[|k]]]; cbn; congruence. Qed.

Lemma label_for_known (k : nat) : label_for k <> UNKNOWN.
Proof. destruct k as [|[|[|k]]]; cbn; congruence. Qed.

Lemma labelled_same_topology (m m' : Mesh) :
  same_topology m m' -> labelled m -> labelled m'.
Proof.
  intros (Hnv & _ & Hl & Hmk & _ & _ & Hve & _) Hlab vid Hv.
  unfold marked_edges. rewrite Hl, Hmk, Hve. apply Hlab. now rewrite <- Hnv.
Qed.

Section Completion.

Context `{Collaborators}.

Variables (m : Mesh) (opt : SmootherOptions).

Hypothesis Hlab : labelled m.

Lemma labelled_feature_nbrs (vid : N) :
  vid < num_verts m -> label m vid = FEATURE ->
  exists front back, marked_nbrs m vid = [front; back].
Proof.
  intros Hv Hf. rewrite (Hlab vid Hv) in Hf. apply label_for_feature in Hf.
  unfold marked_nbrs. fold (marked_edges m vid).
  destruct (marked_edges m vid) as [|e1 [|e2 [|e3 l]]]; try discriminate.
  cbn. eauto.
Qed.

Lemma assemble_loop_completes (l : list N) (s : Assembly) :
  (forall v, In v l -> v < num_verts m) ->
  List.NoDup l ->
  (forall v, In v l -> feature_data s !! v = None) ->
  exists s', for_each (assemble_vertex m opt) l s = Done s'.
Proof.
  revert s. induction l as [|x l IH]; intros s Hin Hnd Hfresh; [now exists s|].
  apply List.NoDup_cons_iff in Hnd. destruct Hnd as (Hx & Hnd).
  assert (Hstep : exists s1, assemble_vertex m opt s x = Done s1).
  { unfold assemble_vertex. destruct (label m x) eqn:El; try (eexists; reflexivity).
    - destruct (labelled_feature_nbrs x) as (front & back & Hn); [apply Hin; now left|assumption|].
      rewrite (smooth_on_tangent_line_emits m opt x s front back Hn) by (apply Hfresh; now left).
      eexists; reflexivity.
    - exfalso. rewrite (Hlab x) in El by (apply Hin; now left).
      now apply label_for_known in El. }
  destruct Hstep as (s1 & Hs1). cbn [for_each]. rewrite Hs1. cbn [bind].
  apply IH; [intros v Hv; apply Hin; now right|assumption|].
  intros v Hv.
  destruct (assemble_vertex_feature_data m opt x s s1 Hs1)
    as [(_ & _ & dir & ->) | (_ & _ & ->)].
  - rewrite lookup_insert_ne; [apply Hfresh; now right|]. intros ->. contradiction.
  - apply Hfresh. now right.
Qed.

Lemma assemble_system_completes (out : list string) :
  exists s, assemble_system m opt out = Done s.
Proof.
  unfold assemble_system. apply assemble_loop_completes.
  - intros v Hv. now apply in_uint_range.
  - apply NoDup_uint_range.
  - intros v _. rewrite laplacian_term_feature_data. apply lookup_empty.
Qed.

End Completion.

(** ** How a call can end *)

Section Aborts.

Context `{Collaborators}.

Variables (opt : SmootherOptions) (ref_srf ref_feat : Octree).

Lemma res_at_abort (res : list float) (i : N) (f : failure) :
  res_at res i = Abort f -> f = IndexOutOfRange.
Proof. unfold res_at. destruct (res !! N.to_nat i); [discriminate|]. now intros [= <-]. Qed.

Lemma update_vertex_abort (fd : gmap N (vec3d * N)) (res : list float) (nv : N)
  (m : Mesh) (vid : N) (f : failure) :
  update_vertex opt ref_srf ref_feat fd res nv m vid = Abort f ->
  label m vid <> UNKNOWN ->
  (label m vid = FEATURE -> is_Some (fd !! vid)) ->
  f = IndexOutOfRange.
Proof.
  unfold update_vertex. intros Hu Hk Hf.
  destruct (label m vid) eqn:El; [| | |congruence].
  all: try (destruct (Hf eq_refl) as (d & Hd); unfold feature_at in Hu; rewrite Hd in Hu;
            cbn [bind] in Hu).
  all: repeat match type of Hu with
         | context [bind (res_at ?r ?i) _] =>
             let E := fresh "E" in
             destruct (res_at r i) eqn:E; cbn [bind] in Hu;
             [|injection Hu as <-; eapply res_at_abort; eassumption]
         end.
  all: discriminate.
Qed.

Lemma update_loop_abort (fd : gmap N (vec3d * N)) (res : list float) (nv : N)
  (l : list N) (m : Mesh) (f : failure) :
  for_each (update_vertex opt ref_srf ref_feat fd res nv) l m = Abort f ->
  (forall v, In v l -> label m v <> UNKNOWN) ->
  (forall v, In v l -> label m v = FEATURE -> is_Some (fd !! v)) ->
  f = IndexOutOfRange.
Proof.
  revert m. induction l as [|x l IH]; intros m; [discriminate|].
  cbn [for_each]. intros Hl Hk Hf.
  destruct (update_vertex opt ref_srf ref_feat fd res nv m x) as [m1|f1] eqn:E1;
    cbn [bind] in Hl.
  - destruct (update_vertex_frame _ _ _ _ _ _ _ _ _ E1) as ((_ & _ & Hlab & _) & _).
    apply (IH m1 Hl); rewrite Hlab; intros v Hv; [apply Hk|apply Hf]; now right.
  - injection Hl as <-.
    apply (update_vertex_abort _ _ _ _ _ _ E1); [apply Hk|apply Hf]; now left.
Qed.

Lemma smooth_iter_abort (m : Mesh) (out : list string) (i : N) (f : failure) :
  labelled m ->
  smooth_iter opt ref_srf ref_feat (m, out) i = Abort f ->
  f = SolveFailed \/ f = IndexOutOfRange.
Proof.
  intros Hlab. unfold smooth_iter.
  destruct (assemble_system_completes m opt Hlab
              (out ++ [iteration_line i]))
    as (s & Hs).
  rewrite Hs. cbn [bind]. unfold solve.
  destruct (solve_weighted_least_squares _ _ _) as [res|]; cbn [bind];
    [|intros [= <-]; now left].
  destruct (for_each _ (uint_range (num_verts m)) m) as [m'|f'] eqn:El; cbn [bind];
    [discriminate|].
  intros [= <-]. right.
  unfold assemble_system in Hs.
  destruct (assemble_loop_feature_data m opt _ _ _ Hs) as (_ & _ & Hcol & _ & Hknown).
  apply (update_loop_abort _ _ _ _ _ _ El); [exact Hknown|].
  intros v Hv Hf.
  assert (Hin : v ∈ features_among m (uint_range (num_verts m))).
  { unfold features_among. apply list_elem_of_filter. split; [assumption|].
    now apply list_elem_of_In. }
  apply list_elem_of_lookup_1 in Hin. destruct Hin as (j & Hj).
  destruct (Hcol j v Hj) as (dir & Hd). rewrite Hd. eauto.
Qed.

Lemma iterations_abort (l : list N) (m : Mesh) (out : list string) (f : failure) :
  labelled m ->
  for_each (smooth_iter opt ref_srf ref_feat) l (m, out) = Abort f ->
  f = SolveFailed \/ f = IndexOutOfRange.
Proof.
  revert m out. induction l as [|i l IH]; intros m out Hlab; [discriminate|].
  cbn [for_each].
  destruct (smooth_iter opt ref_srf ref_feat (m, out) i) as [[m1 out1]|f1] eqn:E1;
    cbn [bind].
  - apply IH. eapply labelled_same_topology; [|eassumption].
    eapply smooth_iter_frame; eassumption.
  - intros [= <-]. eapply smooth_iter_abort; eassumption.
Qed.

End Aborts.

(** C9.  After [label_features] every vertex labelled FEATURE has exactly
    two marked incident edges and every vertex has one of the labels
    REGULAR, FEATURE, CORNER (the number of incident edges fitting the
    [uint] that counts them).  As no iteration changes labels, marks or
    adjacency, no iteration fails the assertion [nbrs.size()==2] or reaches
    the "unknown vertex type" branch of either switch: a call of
    [mesh_smoother] that does not complete ends on a failed solve or on a
    read outside the solution vector. *)
Theorem label_assertions_unreachable `{Collaborators} (m : Mesh) :
  degrees_fit m = true ->
  (forall vid, vid < num_verts m ->
     label (label_features m) vid = FEATURE ->
     length (marked_edges (label_features m) vid) = 2%nat) /\
  (forall vid, vid < num_verts m ->
     label (label_features m) vid = REGULAR \/
     label (label_features m) vid = FEATURE \/
     label (label_features m) vid = CORNER) /\
  (forall target opt out f,
     mesh_smoother m target opt out = Abort f ->
     f <> nbrs_size_assertion /\ f <> unknown_vertex_type_assertion /\
     (f = SolveFailed \/ f = IndexOutOfRange)).
Proof.
  intros Hfit. pose proof (label_features_labelled m Hfit) as Hlab.
  destruct (label_features_topology m) as (Hnv & _).
  split; [|split].
  - intros vid Hv Hf. apply label_for_feature. rewrite <- Hf. symmetry.
    apply Hlab. now rewrite Hnv.
  - intros vid Hv. rewrite (Hlab vid) by now rewrite Hnv.
    destruct (length (marked_edges (label_features m) vid)) as [|[|[|k]]]; cbn; auto.
  - intros target opt out f. unfold mesh_smoother.
    destruct (make_octrees m target opt) as [ref_srf ref_feat]. intros Ha.
    apply iterations_abort in Ha; [|assumption].
    destruct Ha as [-> | ->]; repeat split; try discriminate; auto.
Qed.

(** ** Reconstruction *)

Lemma res_at_lt (res : list float) (i : N) :
  (N.to_nat i < length res)%nat -> exists x, res_at res i = Done x.
Proof.
  intros Hi. unfold res_at.
  destruct (lookup_lt_is_Some_2 res (N.to_nat i) Hi) as (x & ->). now exists x.
Qed.

Section Reconstruction.

Context `{Collaborators}.

Variables (opt : SmootherOptions) (ref_srf ref_feat : Octree).
Variables (fd : gmap N (vec3d * N)) (res : list float) (nv : N).

Lemma update_loop_completes (l : list N) (m : Mesh) :
  (forall v, In v l -> label m v <> UNKNOWN) ->
  (forall v, In v l ->
     (N.to_nat v < length res)%nat /\
     (N.to_nat (uint_add nv v) < length res)%nat /\
     (N.to_nat (uint_add (uint_mul 2 nv) v) < length res)%nat) ->
  (forall v, In v l -> label m v = FEATURE ->
     exists d, fd !! v = Some d /\ (N.to_nat (snd d) < length res)%nat) ->
  exists m', for_each (update_vertex opt ref_srf ref_feat fd res nv) l m = Done m'.
Proof.
  revert m. induction l as [|x l IH]; intros m Hk Hc Hf; [now exists m|].
  assert (Hstep : exists m1, update_vertex opt ref_srf ref_feat fd res nv m x = Done m1).
  { destruct (Hc x) as (Hx & Hy & Hz); [now left|].
    destruct (res_at_lt _ _ Hx) as (a & Ha).
    destruct (res_at_lt _ _ Hy) as (b & Hb).
    destruct (res_at_lt _ _ Hz) as (c & Hc').
    unfold update_vertex. destruct (label m x) eqn:El.
    - rewrite Ha, Hb, Hc'. cbn [bind]. eauto.
    - destruct (Hf x) as (d & Hd & Ht); [now left|assumption|].
      destruct (res_at_lt _ _ Ht) as (t & Ht').
      unfold feature_at. rewrite Hd. cbn [bind]. rewrite Ht'. cbn [bind]. eauto.
    - rewrite Ha, Hb, Hc'. cbn [bind]. eauto.
    - exfalso. apply (Hk x); [now left|assumption]. }
  destruct Hstep as (m1 & Hm1). cbn [for_each]. rewrite Hm1. cbn [bind].
  destruct (update_vertex_frame _ _ _ _ _ _ _ _ _ Hm1) as ((_ & _ & Hlab & _) & _).
  apply IH; rewrite ?Hlab; intros v Hv; [apply Hk|apply Hc|apply Hf]; now right.
Qed.

Lemma update_loop_feature_position (l : list N) (m m' : Mesh) (vid : N) :
  reproject_on_target opt = false ->
  List.NoDup l -> In vid l ->
  label m vid = FEATURE ->
  for_each (update_vertex opt ref_srf ref_feat fd res nv) l m = Done m' ->
  exists d t,
    fd !! vid = Some d /\ res !! N.to_nat (snd d) = Some t /\
    vert m' vid = vec_add (vert m vid) (vec_scale (fst d) t).
Proof.
  intros Hrep. revert m. induction l as [|x l IH]; intros m Hnd Hin Hlab; [destruct Hin|].
  apply List.NoDup_cons_iff in Hnd. destruct Hnd as (Hx & Hnd).
  cbn [for_each].
  destruct (update_vertex opt ref_srf ref_feat fd res nv m x) as [m1|] eqn:E1;
    [|discriminate].
  cbn [bind]. intros Hl.
  destruct (update_vertex_frame _ _ _ _ _ _ _ _ _ E1) as ((_ & _ & Hlab1 & _) & Hv1).
  destruct (N.eq_dec x vid) as [->|Hne].
  - destruct (update_loop_frame _ _ _ _ _ _ _ _ _ Hl) as (_ & Hrest).
    rewrite (Hrest vid Hx).
    unfold update_vertex in E1. rewrite Hlab, Hrep in E1.
    unfold feature_at, res_at in E1.
    destruct (fd !! vid) as [d|]; [|discriminate]. cbn [bind] in E1.
    destruct (res !! N.to_nat (snd d)) as [t|] eqn:Et; [|discriminate]. cbn [bind] in E1.
    injection E1 as <-. exists d, t. rewrite set_vert_same. auto.
  - destruct Hin as [->|Hin]; [contradiction|].
    rewrite <- (Hv1 vid) by congruence.
    apply IH; try assumption. now rewrite Hlab1.
Qed.

End Reconstruction.

(** C8.  With reprojection disabled, an iteration whose system is solved by
    a vector [res] with one entry per column moves every FEATURE vertex to
    [old_position + t * direction], the sum and the product being those of
    [vec3d]: [direction] and the column of [t] are the pair recorded for the
    vertex in the [feature_data] of this iteration, [t] is the entry of
    [res] at that column.  The displacement applied to the vertex is the
    scalar multiple [t * direction] of the tangent direction, whatever [res]
    holds. *)
Theorem feature_update_along_tangent `{Collaborators} (m : Mesh)
  (opt : SmootherOptions) (ref_srf ref_feat : Octree) (out : list string) (i : N)
  (s : Assembly) (res : list float) (vid : N) :
  reproject_on_target opt = false ->
  assemble_system m opt (out ++ [iteration_line i]) = Done s ->
  solve_weighted_least_squares (system_matrix m s) (w s) (rhs s) = Some res ->
  length res = N.to_nat (mat_cols (system_matrix m s)) ->
  3 * num_verts m + N.of_nat (length (feature_verts m)) < 2 ^ 32 ->
  vid < num_verts m ->
  label m vid = FEATURE ->
  exists m' dir col_t t,
    smooth_iter opt ref_srf ref_feat (m, out) i = Done (m', cout s) /\
    feature_data s !! vid = Some (dir, col_t) /\
    res !! N.to_nat col_t = Some t /\
    vert m' vid = vec_add (vert m vid) (vec_scale dir t).
Proof.
  intros Hrep Hs Hsolve Hlen Hfit Hv Hlab.
  set (nv := num_verts m) in *.
  destruct (assemble_system_feature_data m opt _ s Hs) as (Hsz & Hcol & _ & Hknown).
  fold nv in Hcol, Hknown.
  assert (Hc3 : uint_add (uint_add nv nv) nv = 3 * nv).
  { unfold uint_add. rewrite (uint_wrap_small (nv + nv)) by lia.
    rewrite uint_wrap_small by lia. lia. }
  assert (Hcols : length res = N.to_nat (3 * nv + N.of_nat (length (feature_verts m)))).
  { rewrite Hlen. unfold system_matrix. cbn [mat_cols]. rewrite Hsz. fold nv.
    unfold uint_mul. rewrite uint_wrap_small by lia. f_equal. lia. }
  destruct (update_loop_completes opt ref_srf ref_feat (feature_data s) res nv
              (uint_range nv) m) as (m' & Hm').
  - intros v Hin. now apply Hknown, in_uint_range.
  - intros v Hin. apply in_uint_range in Hin.
    destruct (coordinate_columns nv v) as (Hx & Hy & Hz & Bx & By & Bz); [lia|assumption|].
    unfold col_x, col_y, col_z in *.
    assert (H2 : uint_mul 2 nv = uint_add nv nv).
    { unfold uint_mul, uint_add. f_equal. lia. }
    rewrite H2. lia.
  - intros v Hin Hf.
    assert (Hinf : v ∈ feature_verts m).
    { unfold feature_verts, features_among. apply list_elem_of_filter.
      split; [assumption|]. now apply list_elem_of_In. }
    apply list_elem_of_lookup_1 in Hinf. destruct Hinf as (j & Hj).
    destruct (Hcol j v Hj) as (dir & Hd). eexists. split; [exact Hd|].
    apply lookup_lt_Some in Hj. cbn [snd]. rewrite Hc3, uint_wrap_small by lia. lia.
  - destruct (update_loop_feature_position opt ref_srf ref_feat (feature_data s) res
                nv (uint_range nv) m m' vid Hrep
                (NoDup_uint_range _)) as ([dir col_t] & t & Hd & Ht & Hpos);
      [now apply in_uint_range|assumption|assumption|].
    exists m', dir, col_t, t. repeat split; try assumption.
    unfold smooth_iter. rewrite Hs. cbn [bind]. unfold solve. rewrite Hsolve.
    cbn [bind]. fold nv. rewrite Hm'. reflexivity.
Qed.

(** * Further properties of the smoother *)

(** ** The Laplacian block *)

Lemma push_entries_fields (L : list Entry) (s : Assembly) :
  fold_left (fun s entry => push_entry entry s) L s =
  mk_Assembly (row s) (w s) (entries s ++ L) (rhs s) (feature_data s) (cout s).
Proof.
  revert s. induction L as [|e L IH]; intros s.
  - destruct s. cbn. now rewrite app_nil_r.
  - cbn [fold_left]. rewrite IH. unfold push_entry.
    cbn [row w entries rhs feature_data cout]. now rewrite <- app_assoc.
Qed.

Lemma push_zero_rows_fields (weight : float) (n : nat) (s : Assembly) :
  Nat.iter n (fun s => push_rhs 0%float (push_w weight s)) s =
  mk_Assembly (row s) (w s ++ repeat weight n) (entries s)
              (rhs s ++ repeat 0%float n) (feature_data s) (cout s).
Proof.
  induction n as [|n IH].
  - destruct s. cbn. now rewrite !app_nil_r.
  - rewrite Nat.iter_succ, IH. unfold push_rhs, push_w.
    cbn [row w entries rhs feature_data cout].
    rewrite <- !app_assoc, <- !repeat_cons. reflexivity.
Qed.

(** X1.  [laplacian_term] appends the entries of [laplacian_matrix_entries]
    as they are (no row or column offset is applied, whatever the row
    counter is), then [extra_rows = uint(3 |V|)] rows of weight [weight] and
    right-hand side 0, and moves the counter by [extra_rows]; the feature
    parameters and the output are untouched. *)
Theorem laplacian_block `{Collaborators} (m : Mesh) (mode : Z) (weight : float)
  (s : Assembly) :
  let extra_rows := uint_mul (num_verts m) 3 in
  laplacian_term m mode weight s =
  mk_Assembly (uint_add (row s) extra_rows)
              (w s ++ repeat weight (N.to_nat extra_rows))
              (entries s ++ laplacian_matrix_entries m mode 3)
              (rhs s ++ repeat 0%float (N.to_nat extra_rows))
              (feature_data s) (cout s).
Proof.
  intros extra_rows. unfold laplacian_term. fold extra_rows.
  rewrite N2Nat.inj_iter, push_entries_fields, push_zero_rows_fields.
  reflexivity.
Qed.

(** ** Failures of the tangent-line block *)

Lemma marked_nbrs_length `{Collaborators} (m : Mesh) (vid : N) :
  length (marked_nbrs m vid) = length (marked_edges m vid).
Proof. unfold marked_nbrs. fold (marked_edges m vid). apply length_map. Qed.

(** X2.  [smooth_on_tangent_line] on a vertex whose number of marked
    incident edges is not two (none, one, three or more) fails the assertion
    [nbrs.size()==2]: nothing is emitted. *)
Theorem tangent_line_needs_two_marked_edges `{Collaborators} (m : Mesh) (vid : N)
  (weight : float) (s : Assembly) :
  length (marked_edges m vid) <> 2%nat ->
  smooth_on_tangent_line m vid weight s = Abort nbrs_size_assertion.
Proof.
  intros Hn. rewrite <- marked_nbrs_length in Hn. unfold smooth_on_tangent_line.
  destruct (marked_nbrs m vid) as [|a [|b [|c l]]]; try reflexivity.
  now contradiction Hn.
Qed.

(** X3.  [smooth_on_tangent_line] on a vertex that already has an entry in
    [feature_data] fails the assertion [DOES_NOT_CONTAIN(feature_data,vid)]:
    a vertex is given a parameter at most once per iteration. *)
Theorem tangent_line_allocates_once `{Collaborators} (m : Mesh) (vid : N)
  (weight : float) (s : Assembly) :
  length (marked_edges m vid) = 2%nat ->
  is_Some (feature_data s !! vid) ->
  smooth_on_tangent_line m vid weight s = Abort does_not_contain_assertion.
Proof.
  intros Hn (d & Hd). rewrite <- marked_nbrs_length in Hn. unfold smooth_on_tangent_line.
  destruct (marked_nbrs m vid) as [|a [|b [|c l]]]; try discriminate.
  destruct s as [r ws es bs fd out]. cbn [feature_data] in Hd.
  destruct (length_squared (normalize (vec_sub a b)) =? 0)%float;
    cbn [feature_data print]; now rewrite Hd.
Qed.

(** ** Assembly of a whole iteration *)

(** X4.  On a mesh whose labels match its marked edges the assembly of an
    iteration always completes: no assertion of the four operations fails,
    in particular no vertex is given a second parameter. *)
Theorem assembly_completes `{Collaborators} (m : Mesh) (opt : SmootherOptions)
  (out : list string) :
  labelled m ->
  exists s, assemble_system m opt out = Done s.
Proof. intros Hlab. now apply assemble_system_completes. Qed.

(** X5.  A vertex with a label that is none of REGULAR, FEATURE, CORNER
    stops the assembly: the iteration never reaches the solver. *)
Theorem unknown_label_stops_assembly `{Collaborators} (m : Mesh)
  (opt : SmootherOptions) (out : list string) (vid : N) :
  vid < num_verts m ->
  label m vid = UNKNOWN ->
  exists f, assemble_system m opt out = Abort f.
Proof.
  intros Hv Hl. destruct (assemble_system m opt out) as [s|f] eqn:E; [|now exists f].
  destruct (assemble_system_feature_data m opt out s E) as (_ & _ & _ & Hknown).
  now destruct (Hknown vid Hv).
Qed.

(** ** Reconstruction of the positions *)

Section Positions.

Context `{Collaborators}.

Variables (opt : SmootherOptions) (ref_srf ref_feat : Octree).
Variables (fd : gmap N (vec3d * N)) (res : list float) (nv : N).

(** The position a vertex gets depends on its own label and position only. *)
Lemma update_vertex_own (m m2 r2 : Mesh) (vid : N) :
  label m2 = label m -> vert m2 vid = vert m vid ->
  update_vertex opt ref_srf ref_feat fd res nv m2 vid = Done r2 ->
  exists r, update_vertex opt ref_srf ref_feat fd res nv m vid = Done r /\
            vert r vid = vert r2 vid.
Proof.
  intros Hl Hv. unfold update_vertex. rewrite Hl, Hv.
  destruct (label m vid); destruct_binds; intros [= <-]; eexists;
    (split; [reflexivity|]); now rewrite !set_vert_same.
Qed.

Lemma update_loop_own (l : list N) (m m' : Mesh) (vid : N) :
  List.NoDup l -> In vid l ->
  for_each (update_vertex opt ref_srf ref_feat fd res nv) l m = Done m' ->
  exists r, update_vertex opt ref_srf ref_feat fd res nv m vid = Done r /\
            vert m' vid = vert r vid.
Proof.
  revert m. induction l as [|x l IH]; intros m Hnd Hin; [destruct Hin|].
  apply List.NoDup_cons_iff in Hnd. destruct Hnd as (Hx & Hnd).
  cbn [for_each].
  destruct (update_vertex opt ref_srf ref_feat fd res nv m x) as [m1|] eqn:E1;
    [|discriminate].
  cbn [bind]. intros Hl.
  destruct (update_vertex_frame _ _ _ _ _ _ _ _ _ E1) as ((_ & _ & Hlab1 & _) & Hv1).
  destruct (N.eq_dec x vid) as [->|Hne].
  - destruct (update_loop_frame _ _ _ _ _ _ _ _ _ Hl) as (_ & Hrest).
    exists m1. split; [assumption|]. now apply Hrest.
  - destruct Hin as [->|Hin]; [contradiction|].
    destruct (IH m1 Hnd Hin Hl) as (r2 & Hr2 & Hpos).
    destruct (update_vertex_own m m1 r2 vid Hlab1) as (r & Hr & Hrv);
      [apply Hv1; congruence|assumption|].
    exists r. split; [assumption|]. now rewrite Hrv.
Qed.

End Positions.

(** An iteration whose system fits the [uint] columns and whose solver
    answers with one value per column runs to its end. *)
Lemma iteration_completes `{Collaborators} (m : Mesh) (opt : SmootherOptions)
  (ref_srf ref_feat : Octree) (out : list string) (i : N)
  (s : Assembly) (res : list float) :
  assemble_system m opt (out ++ [iteration_line i]) = Done s ->
  solve_weighted_least_squares (system_matrix m s) (w s) (rhs s) = Some res ->
  length res = N.to_nat (mat_cols (system_matrix m s)) ->
  3 * num_verts m + N.of_nat (length (feature_verts m)) < 2 ^ 32 ->
  exists m',
    for_each (update_vertex opt ref_srf ref_feat (feature_data s) res (num_verts m))
             (uint_range (num_verts m)) m = Done m' /\
    smooth_iter opt ref_srf ref_feat (m, out) i = Done (m', cout s).
Proof.
  intros Hs Hsolve Hlen Hfit.
  set (nv := num_verts m) in *.
  destruct (assemble_system_feature_data m opt _ s Hs) as (Hsz & Hcol & _ & Hknown).
  fold nv in Hcol, Hknown.
  assert (Hc3 : uint_add (uint_add nv nv) nv = 3 * nv).
  { unfold uint_add. rewrite (uint_wrap_small (nv + nv)) by lia.
    rewrite uint_wrap_small by lia. lia. }
  assert (Hcols : length res = N.to_nat (3 * nv + N.of_nat (length (feature_verts m)))).
  { rewrite Hlen. unfold system_matrix. cbn [mat_cols]. rewrite Hsz. fold nv.
    unfold uint_mul. rewrite uint_wrap_small by lia. f_equal. lia. }
  destruct (update_loop_completes opt ref_srf ref_feat (feature_data s) res nv
              (uint_range nv) m) as (m' & Hm').
  - intros v Hin. now apply Hknown, in_uint_range.
  - intros v Hin. apply in_uint_range in Hin.
    destruct (coordinate_columns nv v) as (Hx & Hy & Hz & Bx & By & Bz); [lia|assumption|].
    unfold col_x, col_y, col_z in *.
    assert (H2 : uint_mul 2 nv = uint_add nv nv).
    { unfold uint_mul, uint_add. f_equal. lia. }
    rewrite H2. lia.
  - intros v Hin Hf.
    assert (Hinf : v ∈ feature_verts m).
    { unfold feature_verts, features_among. apply list_elem_of_filter.
      split; [assumption|]. now apply list_elem_of_In. }
    apply list_elem_of_lookup_1 in Hinf. destruct Hinf as (j & Hj).
    destruct (Hcol j v Hj) as (dir & Hd). eexists. split; [exact Hd|].
    apply lookup_lt_Some in Hj. cbn [snd]. rewrite Hc3, uint_wrap_small by lia. lia.
  - exists m'. split; [assumption|].
    unfold smooth_iter. rewrite Hs. cbn [bind]. unfold solve. rewrite Hsolve.
    cbn [bind]. fold nv. now rewrite Hm'.
Qed.

(** X6.  In an iteration that is solved by a vector [res] with one entry
    per column, a REGULAR or CORNER vertex [vid] is moved to the point
    [(res[vid], res[|V|+vid], res[2|V|+vid])]: as it is when reprojection is
    disabled, replaced by its closest point on the target-surface octree
    when it is enabled.  Its old position plays no part. *)
Theorem coordinate_update `{Collaborators} (m : Mesh)
  (opt : SmootherOptions) (ref_srf ref_feat : Octree) (out : list string) (i : N)
  (s : Assembly) (res : list float) (vid : N) :
  assemble_system m opt (out ++ [iteration_line i]) = Done s ->
  solve_weighted_least_squares (system_matrix m s) (w s) (rhs s) = Some res ->
  length res = N.to_nat (mat_cols (system_matrix m s)) ->
  3 * num_verts m + N.of_nat (length (feature_verts m)) < 2 ^ 32 ->
  vid < num_verts m ->
  label m vid = REGULAR \/ label m vid = CORNER ->
  exists m' x y z,
    smooth_iter opt ref_srf ref_feat (m, out) i = Done (m', cout s) /\
    res !! N.to_nat vid = Some x /\
    res !! N.to_nat (num_verts m + vid) = Some y /\
    res !! N.to_nat (2 * num_verts m + vid) = Some z /\
    vert m' vid = if reproject_on_target opt
                  then closest_point ref_srf (mk_vec3d x y z)
                  else mk_vec3d x y z.
Proof.
  intros Hs Hsolve Hlen Hfit Hv Hlab.
  destruct (iteration_completes m opt ref_srf ref_feat out i s res Hs Hsolve Hlen Hfit)
    as (m' & Hloop & Hiter).
  destruct (update_loop_own opt ref_srf ref_feat _ _ _ _ m m' vid
              (NoDup_uint_range _) (proj2 (in_uint_range _ _) Hv) Hloop)
    as (r & Hr & Hpos).
  destruct (coordinate_columns (num_verts m) vid) as (_ & Hy & Hz & _); [lia|assumption|].
  unfold col_y, col_z in Hy, Hz.
  assert (H2 : uint_mul 2 (num_verts m) = uint_add (num_verts m) (num_verts m)).
  { unfold uint_mul, uint_add. f_equal. lia. }
  unfold update_vertex in Hr. rewrite H2, Hy, Hz in Hr. unfold res_at in Hr.
  assert (Hcase : exists x y z,
             res !! N.to_nat vid = Some x /\
             res !! N.to_nat (num_verts m + vid) = Some y /\
             res !! N.to_nat (2 * num_verts m + vid) = Some z /\
             vert r vid = if reproject_on_target opt
                          then closest_point ref_srf (mk_vec3d x y z)
                          else mk_vec3d x y z).
  { destruct Hlab as [Hl | Hl]; rewrite Hl in Hr;
      destruct (res !! N.to_nat vid) as [x|]; try discriminate;
      destruct (res !! N.to_nat (num_verts m + vid)) as [y|]; try discriminate;
      destruct (res !! N.to_nat (2 * num_verts m + vid)) as [z|]; try discriminate;
      cbn [bind] in Hr; injection Hr as <-; exists x, y, z;
      rewrite set_vert_same; auto. }
  destruct Hcase as (x & y & z & Hx' & Hy' & Hz' & Hr').
  exists m', x, y, z. rewrite Hpos. auto.
Qed.

(** X7.  In such an iteration a FEATURE vertex is moved to
    [old_position + t * direction], replaced by its closest point on the
    feature-curve octree when reprojection is enabled: the surface octree
    is not consulted for it. *)
Theorem feature_update_snapped `{Collaborators} (m : Mesh)
  (opt : SmootherOptions) (ref_srf ref_feat : Octree) (out : list string) (i : N)
  (s : Assembly) (res : list float) (vid : N) :
  assemble_system m opt (out ++ [iteration_line i]) = Done s ->
  solve_weighted_least_squares (system_matrix m s) (w s) (rhs s) = Some res ->
  length res = N.to_nat (mat_cols (system_matrix m s)) ->
  3 * num_verts m + N.of_nat (length (feature_verts m)) < 2 ^ 32 ->
  vid < num_verts m ->
  label m vid = FEATURE ->
  exists m' dir col_t t,
    smooth_iter opt ref_srf ref_feat (m, out) i = Done (m', cout s) /\
    feature_data s !! vid = Some (dir, col_t) /\
    res !! N.to_nat col_t = Some t /\
    vert m' vid =
      let p := vec_add (vert m vid) (vec_scale dir t) in
      if reproject_on_target opt then closest_point ref_feat p else p.
Proof.
  intros Hs Hsolve Hlen Hfit Hv Hlab.
  destruct (iteration_completes m opt ref_srf ref_feat out i s res Hs Hsolve Hlen Hfit)
    as (m' & Hloop & Hiter).
  destruct (update_loop_own opt ref_srf ref_feat _ _ _ _ m m' vid
              (NoDup_uint_range _) (proj2 (in_uint_range _ _) Hv) Hloop)
    as (r & Hr & Hpos).
  unfold update_vertex in Hr. rewrite Hlab in Hr. unfold feature_at, res_at in Hr.
  destruct (feature_data s !! vid) as [[dir col_t]|] eqn:Efd; [|discriminate].
  cbn [bind snd fst] in Hr.
  destruct (res !! N.to_nat col_t) as [t|] eqn:Et; [|discriminate].
  cbn [bind] in Hr. injection Hr as <-.
  exists m', dir, col_t, t. rewrite Hpos, set_vert_same.
  split; [assumption|]. split; [reflexivity|]. split; [assumption|reflexivity].
Qed.

(** ** The whole call *)

Lemma same_topology_feature_verts (m m' : Mesh) :
  same_topology m m' -> feature_verts m' = feature_verts m.
Proof.
  intros (Hnv & _ & Hl & _). unfold feature_verts, features_among. now rewrite Hnv, Hl.
Qed.

Lemma iterations_complete `{Collaborators} (opt : SmootherOptions)
  (ref_srf ref_feat : Octree) (l : list N) (m : Mesh) (out : list string) :
  solver_answers ->
  labelled m ->
  3 * num_verts m + N.of_nat (length (feature_verts m)) < 2 ^ 32 ->
  exists m' out',
    for_each (smooth_iter opt ref_srf ref_feat) l (m, out) = Done (m', out').
Proof.
  intros Hsolver. revert m out. induction l as [|i l IH]; intros m out Hlab Hfit.
  - now exists m, out.
  - destruct (assemble_system_completes m opt Hlab (out ++ [iteration_line i]))
      as (s & Hs).
    destruct (Hsolver (system_matrix m s) (w s) (rhs s)) as (res & Hres & Hlen).
    destruct (iteration_completes m opt ref_srf ref_feat out i s res Hs Hres Hlen Hfit)
      as (m1 & _ & Hiter).
    cbn [for_each]. rewrite Hiter. cbn [bind].
    pose proof (smooth_iter_frame _ _ _ _ _ _ _ _ Hiter) as Htop.
    apply IH.
    + eapply labelled_same_topology; eassumption.
    + rewrite (same_topology_feature_verts _ _ Htop).
      destruct Htop as (-> & _). assumption.
Qed.

(** X8.  With a solver that answers every system with one value per
    column, on a mesh whose index arithmetic fits the 32-bit [uint], a call of
    [mesh_smoother] completes whatever the number of iterations, the
    options and the positions are: the assertions cannot fail and no read of
    the solution vector is out of range. *)
Theorem smoothing_completes `{Collaborators} (m target : Mesh)
  (opt : SmootherOptions) (out : list string) :
  solver_answers ->
  degrees_fit m = true ->
  3 * num_verts m + N.of_nat (length (feature_verts (label_features m))) < 2 ^ 32 ->
  exists m' out', mesh_smoother m target opt out = Done (m', out').
Proof.
  intros Hsolver Hdeg Hfit. unfold mesh_smoother.
  destruct (make_octrees m target opt) as [ref_srf ref_feat].
  apply iterations_complete; [assumption|now apply label_features_labelled|].
  destruct (label_features_topology m) as (-> & _). assumption.
Qed.

(** X9.  A completed call has changed vertex positions and labels only:
    the numbers of vertices and edges, the marks of the edges, the
    adjacencies and the polygon normals are those of the input.  In
    particular the normals are not recomputed between iterations. *)
Theorem smoothing_keeps_topology_and_normals `{Collaborators} (m target m' : Mesh)
  (opt : SmootherOptions) (out out' : list string) :
  mesh_smoother m target opt out = Done (m', out') ->
  num_verts m' = num_verts m /\ num_edges m' = num_edges m /\
  marked m' = marked m /\ normal m' = normal m /\
  adj_v2p m' = adj_v2p m /\ adj_v2e m' = adj_v2e m /\
  edge_vert_ids m' = edge_vert_ids m.
Proof.
  unfold mesh_smoother. destruct (make_octrees m target opt) as [ref_srf ref_feat].
  intros Hd. apply iterations_frame in Hd.
  destruct Hd as (A1 & A2 & _ & A4 & A5 & A6 & A7 & A8).
  destruct (label_features_topology m) as (B1 & B2 & _ & B4 & B5 & B6 & B7 & B8).
  repeat split; congruence.
Qed.

(** ** Reprojection disabled *)

Lemma for_each_ext {S X : Type} (f g : S -> X -> outcome S) (l : list X) (s : S) :
  (forall s x, f s x = g s x) -> for_each f l s = for_each g l s.
Proof.
  intros Hfg. revert s. induction l as [|x l IH]; intros s; [reflexivity|].
  cbn [for_each]. rewrite Hfg. destruct (g s x); cbn [bind]; auto.
Qed.

Lemma smooth_iter_without_octrees `{Collaborators} (opt : SmootherOptions)
  (o1 o2 o1' o2' : Octree) (st : Mesh * list string) (i : N) :
  reproject_on_target opt = false ->
  smooth_iter opt o1 o2 st i = smooth_iter opt o1' o2' st i.
Proof.
  intros Hrep. destruct st as [m out]. unfold smooth_iter.
  destruct (assemble_system m opt (out ++ [iteration_line i])) as [s|]; [|reflexivity].
  cbn [bind]. destruct (solve (system_matrix m s) (w s) (rhs s)) as [res|]; [|reflexivity].
  cbn [bind]. f_equal. apply for_each_ext. intros m1 vid.
  unfold update_vertex. now rewrite Hrep.
Qed.

(** X10.  With reprojection disabled the smoother does not depend on the
    target mesh or on any octree: two calls that differ in the target only
    give the same result. *)
Theorem target_unused_without_reprojection `{Collaborators} (m target1 target2 : Mesh)
  (opt : SmootherOptions) (out : list string) :
  reproject_on_target opt = false ->
  mesh_smoother m target1 opt out = mesh_smoother m target2 opt out.
Proof.
  intros Hrep. unfold mesh_smoother.
  destruct (make_octrees m target1 opt) as [a1 a2].
  destruct (make_octrees m target2 opt) as [b1 b2].
  apply for_each_ext. intros st i. now apply smooth_iter_without_octrees.
Qed.

(** ** Labels *)

Lemma count_marked_same_topology (m m' : Mesh) (vid : N) :
  marked m' = marked m -> adj_v2e m' = adj_v2e m ->
  count_marked m' vid = count_marked m vid.
Proof. intros Hm He. unfold count_marked. now rewrite Hm, He. Qed.

(** X11.  [label_features] does not read the labels it overwrites: meshes
    with the same edges and marks get the same labels on their vertices,
    and labelling twice is labelling once. *)
Theorem label_features_ignores_old_labels (m m' : Mesh) :
  num_verts m' = num_verts m -> marked m' = marked m -> adj_v2e m' = adj_v2e m ->
  (forall vid, vid < num_verts m ->
     label (label_features m') vid = label (label_features m) vid) /\
  (forall vid, label (label_features (label_features m)) vid =
               label (label_features m) vid).
Proof.
  intros Hnv Hm He. split.
  - intros vid Hv. rewrite !label_features_label by (rewrite ?Hnv; assumption).
    now rewrite (count_marked_same_topology m m').
  - intros vid.
    destruct (label_features_topology m) as (Tnv & _ & _ & Tm & _ & _ & Te & _).
    unfold label_features at 1. rewrite label_loop_label.
    destruct (In_dec N.eq_dec vid (uint_range (num_verts (label_features m))))
      as [Hin|_]; [|reflexivity].
    apply in_uint_range in Hin. rewrite Tnv in Hin.
    rewrite (count_marked_same_topology m (label_features m)) by assumption.
    symmetry. now apply label_features_label.
Qed.

(** ** Size of the system *)

Section SystemSize.

Context `{Collaborators}.

Variables (m : Mesh) (opt : SmootherOptions).

Lemma assemble_vertex_rows (vid : N) (s s' : Assembly) :
  row s < 2 ^ 32 ->
  assemble_vertex m opt s vid = Done s' ->
  grown_by (rows_of_vertex m vid) s s'.
Proof.
  intros Hs. unfold assemble_vertex, rows_of_vertex. destruct (label m vid).
  - intros [= <-]. now apply smooth_on_tangent_space_grown.
  - intros Hd. eapply smooth_on_tangent_line_grown; eassumption.
  - intros [= <-]. apply hold_corner_grown.
  - discriminate.
Qed.

Lemma assemble_loop_rows (l : list N) (s s' : Assembly) :
  row s < 2 ^ 32 ->
  for_each (assemble_vertex m opt) l s = Done s' ->
  grown_by (fold_right N.add 0 (map (rows_of_vertex m) l)) s s'.
Proof.
  revert s. induction l as [|vid l IH]; intros s Hs.
  - intros [= <-]. unfold grown_by. cbn [map fold_right].
    rewrite uint_add_0_r, uint_wrap_small by assumption. repeat split; lia.
  - cbn [for_each]. destruct (assemble_vertex m opt s vid) as [s1|f] eqn:E1; [|discriminate].
    cbn [bind]. intros Hl.
    pose proof (assemble_vertex_rows vid s s1 Hs E1) as Hj.
    pose proof (IH s1 (grown_by_row_lt _ _ _ Hj) Hl) as Hk.
    cbn [map fold_right]. eapply grown_by_trans; eassumption.
Qed.

End SystemSize.

(** X12.  The system handed to the solver has [uint(3 |V|)] rows of the
    Laplacian block, then one row per incident polygon of each REGULAR
    vertex, four per FEATURE vertex and three per CORNER vertex, the row
    indices fitting the [uint] counter; the weight vector and the
    right-hand side have that many entries. *)
Theorem system_rows `{Collaborators} (m : Mesh) (opt : SmootherOptions)
  (out : list string) (s : Assembly) :
  assemble_system m opt out = Done s ->
  rows_fit s ->
  let rows := uint_mul (num_verts m) 3 + vertex_rows m in
  mat_rows (system_matrix m s) = rows /\
  N.of_nat (length (w s)) = rows /\
  N.of_nat (length (rhs s)) = rows.
Proof.
  intros Hs Hfit rows. unfold assemble_system in Hs.
  pose proof (laplacian_term_grown m (laplacian_mode opt) (w_laplace opt)
                (mk_Assembly 0 [] [] [] ∅ out)) as Hl.
  pose proof (assemble_loop_rows m opt _ _ _ (grown_by_row_lt _ _ _ Hl) Hs) as Hv.
  pose proof (grown_by_trans _ _ _ _ _ Hl Hv) as Hall.
  destruct (grown_by_exact _ _ _ Hall) as ((Hr & Hw & Hb) & _);
    [split; reflexivity|assumption|].
  cbn [row w rhs length] in Hr, Hw, Hb. unfold system_matrix. cbn [mat_rows].
  unfold rows, vertex_rows. repeat split; lia.
Qed.

(** ** Columns of the feature parameters *)

(** X13.  In a system whose columns fit a [uint], every parameter column
    recorded in [feature_data] lies in [3|V|, number of columns): it is
    never one of the [3 |V|] coordinate columns; and two different vertices
    recorded there never share a parameter column. *)
Theorem feature_columns_distinct `{Collaborators} (m : Mesh) (opt : SmootherOptions)
  (out : list string) (s : Assembly) :
  assemble_system m opt out = Done s ->
  3 * num_verts m + N.of_nat (length (feature_verts m)) < 2 ^ 32 ->
  (forall v d c, feature_data s !! v = Some (d, c) ->
     3 * num_verts m <= c /\ c < mat_cols (system_matrix m s)) /\
  (forall v1 v2 d1 d2 c1 c2,
     feature_data s !! v1 = Some (d1, c1) ->
     feature_data s !! v2 = Some (d2, c2) ->
     v1 <> v2 -> c1 <> c2).
Proof.
  intros Hs Hfit.
  set (nv := num_verts m) in *.
  destruct (assemble_system_feature_data m opt out s Hs) as (Hsz & Hcol & Hkeys & _).
  fold nv in Hcol.
  assert (Hc3 : uint_add (uint_add nv nv) nv = 3 * nv).
  { unfold uint_add. rewrite (uint_wrap_small (nv + nv)) by lia.
    rewrite uint_wrap_small by lia. lia. }
  assert (Hidx : forall v d c, feature_data s !! v = Some (d, c) ->
             exists j, feature_verts m !! j = Some v /\ c = 3 * nv + N.of_nat j /\
                       (j < length (feature_verts m))%nat).
  { intros v d c Hv. pose proof (Hkeys v _ Hv) as Hin.
    apply list_elem_of_In, list_elem_of_lookup_1 in Hin. destruct Hin as (j & Hj).
    destruct (Hcol j v Hj) as (dir & Hd). rewrite Hv in Hd. injection Hd as _ ->.
    pose proof (lookup_lt_Some _ _ _ Hj) as Hlt.
    exists j. rewrite Hc3, uint_wrap_small by lia. auto. }
  split.
  - intros v d c Hv. destruct (Hidx v d c Hv) as (j & Hj & -> & Hlt).
    split; [lia|].
    unfold system_matrix. cbn [mat_cols]. rewrite Hsz. fold nv.
    unfold uint_mul. rewrite uint_wrap_small by lia. lia.
  - intros v1 v2 d1 d2 c1 c2 H1 H2 Hne.
    destruct (Hidx v1 d1 c1 H1) as (j1 & Hj1 & -> & Hlt1).
    destruct (Hidx v2 d2 c2 H2) as (j2 & Hj2 & -> & Hlt2).
    intros Heq. assert (j1 = j2) by lia. subst j2. congruence.
Qed.

(** ** Output *)

Lemma print_lines_cout (lines : list string) (s : Assembly) :
  cout (print_lines lines s) = cout s ++ lines.
Proof.
  revert s. induction lines as [|l lines IH]; intros s.
  - cbn. now rewrite app_nil_r.
  - cbn [print_lines fold_left]. fold (print_lines lines (print l s)).
    rewrite IH. unfold print. cbn [cout]. now rewrite <- app_assoc.
Qed.

Lemma normal_warnings_are_warnings (m : Mesh) (vid : N) :
  Forall is_warning (normal_warnings m vid).
Proof.
  unfold normal_warnings. generalize (adj_v2p m vid) as pids.
  induction pids as [|pid pids IH]; [constructor|].
  cbn [flat_map]. apply Forall_app. split; [|assumption].
  destruct (length_squared (normal m pid) =? 0)%float;
    [constructor; [left; reflexivity|constructor]|constructor].
Qed.

Lemma laplacian_term_cout `{Collaborators} (m : Mesh) (mode : Z) (weight : float)
  (s : Assembly) :
  cout (laplacian_term m mode weight s) = cout s.
Proof.
  unfold laplacian_term, advance_row. cbn [cout].
  now rewrite N2Nat.inj_iter, push_entries_fields, push_zero_rows_fields.
Qed.

Section Output.

Context `{Collaborators}.

Variables (m : Mesh) (opt : SmootherOptions).

Lemma assemble_vertex_cout (vid : N) (s s' : Assembly) :
  assemble_vertex m opt s vid = Done s' ->
  exists ws, cout s' = cout s ++ ws /\ Forall is_warning ws.
Proof.
  unfold assemble_vertex. destruct (label m vid).
  - intros [= <-]. exists (normal_warnings m vid).
    rewrite smooth_on_tangent_space_emits, print_lines_cout, emit_rows_cout.
    split; [reflexivity|apply normal_warnings_are_warnings].
  - unfold smooth_on_tangent_line.
    destruct (marked_nbrs m vid) as [|front [|back [|? ?]]]; try discriminate.
    destruct s as [r ws es bs fd out].
    destruct (length_squared (normalize (vec_sub front back)) =? 0)%float;
      cbn [feature_data print]; (destruct (fd !! vid); [discriminate|]);
      intros [= <-]; run_pushes.
    + eexists. split; [reflexivity|]. constructor; [right; reflexivity|constructor].
    + exists []. split; [now rewrite app_nil_r|constructor].
  - intros [= <-]. exists []. split; [|constructor].
    destruct s as [r ws es bs fd out]. unfold hold_corner. run_pushes.
    now rewrite app_nil_r.
  - discriminate.
Qed.

Lemma assemble_loop_cout (l : list N) (s s' : Assembly) :
  for_each (assemble_vertex m opt) l s = Done s' ->
  exists ws, cout s' = cout s ++ ws /\ Forall is_warning ws.
Proof.
  revert s. induction l as [|vid l IH]; intros s.
  - intros [= <-]. exists []. split; [now rewrite app_nil_r|constructor].
  - cbn [for_each]. destruct (assemble_vertex m opt s vid) as [s1|f] eqn:E1; [|discriminate].
    cbn [bind]. intros Hl.
    destruct (assemble_vertex_cout vid s s1 E1) as (ws1 & Hc1 & Hw1).
    destruct (IH s1 Hl) as (ws2 & Hc2 & Hw2).
    exists (ws1 ++ ws2). split.
    + now rewrite Hc2, Hc1, <- app_assoc.
    + apply Forall_app. now split.
Qed.

End Output.

Lemma iteration_output_lines `{Collaborators} (opt : SmootherOptions)
  (ref_srf ref_feat : Octree) (m m' : Mesh) (out out' : list string) (i : N) :
  smooth_iter opt ref_srf ref_feat (m, out) i = Done (m', out') ->
  exists ws, out' = out ++ iteration_line i :: ws /\ Forall is_warning ws.
Proof.
  unfold smooth_iter.
  destruct (assemble_system m opt (out ++ [iteration_line i])) as [s|] eqn:Es;
    [|discriminate].
  cbn [bind]. destruct_binds. intros [= _ <-].
  unfold assemble_system in Es.
  destruct (assemble_loop_cout m opt _ _ _ Es) as (ws & Hc & Hw).
  exists ws. split; [|assumption].
  rewrite Hc, laplacian_term_cout. cbn [cout]. now rewrite <- app_assoc.
Qed.

(** X14.  A completed iteration [i] writes the line "smooth iter #i" and
    then nothing but warnings about degenerate geometry (zero length face
    normal, zero length tangent curve); what was written before stays in
    front of it. *)
Theorem iteration_output `{Collaborators} (opt : SmootherOptions)
  (ref_srf ref_feat : Octree) (m m' : Mesh) (out out' : list string) (i : N) :
  smooth_iter opt ref_srf ref_feat (m, out) i = Done (m', out') ->
  exists ws, out' = out ++ iteration_line i :: ws /\ Forall is_warning ws.
Proof.
  intros Hd.
  destruct (iteration_output_lines opt ref_srf ref_feat m m' out out' i Hd)
    as (ws & Hout & Hws).
  now exists ws.
Qed.

(** ** Triplets inside the matrix *)

Lemma emit_rows_entries_within (C : N -> Prop) (eqs : list Equation) (s : Assembly) :
  row s + N.of_nat (length eqs) < 2 ^ 32 ->
  Forall (fun e => Forall (fun cv => C (fst cv)) (eq_coeffs e)) eqs ->
  exists added,
    entries (emit_rows eqs s) = entries s ++ added /\
    Forall (fun e => row s <= e_row e /\
                     e_row e < row s + N.of_nat (length eqs) /\ C (e_col e)) added.
Proof.
  revert s. induction eqs as [|e eqs IH]; intros s Hfit Hc.
  - exists []. split; [cbn; now rewrite app_nil_r|constructor].
  - apply Forall_cons in Hc. destruct Hc as (Hce & Hc).
    cbn [emit_rows fold_left]. fold (emit_rows eqs (emit_row s e)).
    cbn [length] in Hfit.
    assert (Hrow : row (emit_row s e) = row s + 1).
    { cbn [row emit_row]. unfold uint_add. apply uint_wrap_small. lia. }
    destruct (IH (emit_row s e)) as (added & He & Ha); [rewrite Hrow; lia|assumption|].
    exists (map (fun cv => mk_Entry (row s) (fst cv) (snd cv)) (eq_coeffs e) ++ added).
    split.
    + rewrite He. cbn [entries emit_row]. now rewrite <- app_assoc.
    + apply Forall_app. split.
      * apply Forall_forall. intros x Hx. apply list_elem_of_In, in_map_iff in Hx.
        destruct Hx as (cv & <- & Hcv). cbn [e_row e_col length].
        repeat split; try lia.
        rewrite Forall_forall in Hce. apply Hce. now apply list_elem_of_In.
      * eapply Forall_impl; [exact Ha|]. intros x (H1 & H2 & H3).
        rewrite Hrow in H1, H2. cbn [length]. repeat split; [lia|lia|assumption].
Qed.

Section EntriesWithin.

Context `{Collaborators}.

Variables (m : Mesh) (opt : SmootherOptions).

(** The equations a vertex block appends, and the state it appends them to
    (the parameter recorded, the warning written). *)
Lemma assemble_vertex_equations (vid : N) (s s' : Assembly) :
  assemble_vertex m opt s vid = Done s' ->
  exists eqs s0,
    entries s' = entries (emit_rows eqs s0) /\
    row s0 = row s /\ entries s0 = entries s /\
    Forall (fun e => Forall (fun cv =>
              fst cv = col_x (num_verts m) vid \/ fst cv = col_y (num_verts m) vid \/
              fst cv = col_z (num_verts m) vid \/
              (label m vid = FEATURE /\ fst cv = next_col_t m s)) (eq_coeffs e)) eqs /\
    N.of_nat (length eqs) = rows_of_vertex m vid.
Proof.
  unfold assemble_vertex, rows_of_vertex. destruct (label m vid) eqn:El.
  - intros [= <-]. exists (map (regular_equation m opt vid) (adj_v2p m vid)), s.
    rewrite smooth_on_tangent_space_emits.
    destruct (print_lines_fields (normal_warnings m vid)
                (emit_rows (map (regular_equation m opt vid) (adj_v2p m vid)) s))
      as (_ & _ & -> & _).
    repeat split; [|now rewrite length_map].
    apply Forall_forall. intros e He. apply list_elem_of_In, in_map_iff in He.
    destruct He as (pid & <- & _). unfold regular_equation. cbn [eq_coeffs].
    repeat match goal with |- Forall _ _ => constructor end; cbn [fst]; auto 8.
  - intros Hd.
    assert (Hshape : exists front back, marked_nbrs m vid = [front; back] /\
                                        feature_data s !! vid = None).
    { unfold smooth_on_tangent_line in Hd.
      destruct (marked_nbrs m vid) as [|front [|back [|? ?]]]; try discriminate.
      exists front, back. split; [reflexivity|].
      destruct s as [r ws es bs fd out].
      destruct (length_squared (normalize (vec_sub front back)) =? 0)%float;
        cbn [feature_data print] in Hd |- *; now destruct (fd !! vid). }
    destruct Hshape as (front & back & Hn & Hf).
    rewrite (smooth_on_tangent_line_emits m opt vid s front back Hn Hf) in Hd.
    injection Hd as <-.
    set (dir := normalize (vec_sub front back)).
    exists (feature_equations m opt vid dir (next_col_t m s)),
           (set_feature vid (dir, next_col_t m s)
              (if (length_squared dir =? 0)%float
               then print "WARNING: zero length tangent curve!" s else s)).
    split; [reflexivity|].
    split; [now destruct (length_squared dir =? 0)%float|].
    split; [now destruct (length_squared dir =? 0)%float|].
    split; [|reflexivity].
    unfold feature_equations.
    repeat match goal with |- Forall _ _ => constructor end; cbn [fst]; auto 8.
  - intros [= <-].
    exists [ mk_Equation [(col_x (num_verts m) vid, 1%float)] (vx (vert m vid)) (w_corner opt);
             mk_Equation [(col_y (num_verts m) vid, 1%float)] (vy (vert m vid)) (w_corner opt);
             mk_Equation [(col_z (num_verts m) vid, 1%float)] (vz (vert m vid)) (w_corner opt) ],
           s.
    split; [reflexivity|]. split; [reflexivity|]. split; [reflexivity|].
    split; [|reflexivity].
    repeat match goal with |- Forall _ _ => constructor end; cbn [fst]; auto 8.
  - discriminate.
Qed.

Lemma assemble_vertex_entries_within (vid : N) (s s' : Assembly) :
  vid < num_verts m ->
  3 * num_verts m + N.of_nat (size (feature_data s')) < 2 ^ 32 ->
  row s < 2 ^ 32 ->
  row s = N.of_nat (length (w s)) ->
  rows_fit s' ->
  assemble_vertex m opt s vid = Done s' ->
  exists added,
    entries s' = entries s ++ added /\
    Forall (entry_within (row s) (row s')
              (3 * num_verts m + N.of_nat (size (feature_data s')))) added /\
    row s' = N.of_nat (length (w s')) /\
    row s <= row s' /\
    (size (feature_data s) <= size (feature_data s'))%nat.
Proof.
  intros Hv Hcols Hs Hrow Hfit Hd. unfold rows_fit in Hfit.
  set (nv := num_verts m) in *.
  pose proof (assemble_vertex_rows m opt vid s s' Hs Hd) as (Hr & Hw & _).
  assert (Hr' : row s' = row s + rows_of_vertex m vid).
  { rewrite Hr. unfold uint_add. apply uint_wrap_small. lia. }
  destruct (assemble_vertex_equations vid s s' Hd)
    as (eqs & s0 & He & Hr0 & He0 & Hc & Hlen).
  fold nv in Hc.
  destruct (coordinate_columns nv vid) as (_ & _ & _ & Bx & By & Bz); [lia|assumption|].
  assert (Hsize : (size (feature_data s) <= size (feature_data s'))%nat /\
                  (label m vid = FEATURE ->
                   next_col_t m s < 3 * nv + N.of_nat (size (feature_data s')))).
  { destruct (assemble_vertex_feature_data m opt vid s s' Hd)
      as [(Hlab & Hfresh & dir & Hfd) | (Hlab & _ & Hfd)].
    - rewrite Hfd in Hcols |- *. rewrite map_size_insert_None in * by assumption.
      split; [lia|]. intros _. unfold next_col_t. fold nv.
      assert (Hc3 : uint_add (uint_add nv nv) nv = 3 * nv).
      { unfold uint_add. rewrite (uint_wrap_small (nv + nv)) by lia.
        rewrite uint_wrap_small by lia. lia. }
      rewrite Hc3, uint_wrap_small by lia. lia.
    - rewrite Hfd. split; [lia|]. intros Hl. contradiction. }
  destruct Hsize as (Hsz & Hct).
  assert (HC : Forall (fun e => Forall (fun cv =>
                  fst cv < 3 * nv + N.of_nat (size (feature_data s'))) (eq_coeffs e)) eqs).
  { eapply Forall_impl; [exact Hc|]. intros e Hce.
    eapply Forall_impl; [exact Hce|].
    intros cv [-> | [-> | [-> | (Hl & ->)]]]; [lia|lia|lia|now apply Hct]. }
  destruct (emit_rows_entries_within
              (fun c => c < 3 * nv + N.of_nat (size (feature_data s'))) eqs s0)
    as (added & Hadd & Hwithin); [rewrite Hr0, Hlen; lia|exact HC|].
  exists added. split; [now rewrite He, Hadd, He0|]. split.
  - eapply Forall_impl; [exact Hwithin|]. intros e (H1 & H2 & H3).
    rewrite Hr0, Hlen in *. unfold entry_within. repeat split; lia.
  - repeat split; lia.
Qed.

Lemma assemble_loop_entries_within (l : list N) (s s' : Assembly) :
  (forall v, In v l -> v < num_verts m) ->
  3 * num_verts m + N.of_nat (size (feature_data s')) < 2 ^ 32 ->
  row s < 2 ^ 32 ->
  row s = N.of_nat (length (w s)) ->
  rows_fit s' ->
  for_each (assemble_vertex m opt) l s = Done s' ->
  exists added,
    entries s' = entries s ++ added /\
    Forall (entry_within (row s) (row s')
              (3 * num_verts m + N.of_nat (size (feature_data s')))) added /\
    row s' = N.of_nat (length (w s')) /\
    row s <= row s' /\
    (size (feature_data s) <= size (feature_data s'))%nat.
Proof.
  revert s. induction l as [|vid l IH]; intros s Hin Hcols Hs Hrow Hfit.
  - intros [= <-]. exists []. rewrite app_nil_r.
    repeat split; [constructor|assumption|lia|lia].
  - cbn [for_each]. destruct (assemble_vertex m opt s vid) as [s1|f] eqn:E1; [|discriminate].
    cbn [bind]. intros Hl.
    pose proof (assemble_vertex_rows m opt vid s s1 Hs E1) as Hg.
    pose proof (grown_by_row_lt _ _ _ Hg) as Hs1.
    destruct (assemble_loop_grown m opt l s1 s' Hs1 Hl) as (k & _ & Hwk & _).
    destruct (assemble_loop_feature_data m opt l s1 s' Hl) as (Hszl & _).
    assert (Hrow1 : row s1 = N.of_nat (length (w s1))).
    { destruct Hg as (Hr & Hw & _). rewrite Hr. unfold uint_add.
      rewrite uint_wrap_small; unfold rows_fit in Hfit; lia. }
    destruct (IH s1) as (added2 & He2 & Hw2 & Hrow' & Hle2 & Hsz2); try assumption;
      [intros v Hv; apply Hin; now right|].
    destruct (assemble_vertex_entries_within vid s s1)
      as (added1 & He1 & Hw1 & _ & Hle1 & Hsz1); try assumption;
      [apply Hin; now left|lia|unfold rows_fit in *; lia|].
    exists (added1 ++ added2). split; [now rewrite He2, He1, <- app_assoc|].
    split; [|repeat split; lia].
    apply Forall_app. split.
    + eapply Forall_impl; [exact Hw1|]. unfold entry_within. intros e (H1 & H2 & H3).
      repeat split; lia.
    + eapply Forall_impl; [exact Hw2|]. unfold entry_within. intros e (H1 & H2 & H3).
      repeat split; lia.
Qed.

End EntriesWithin.

(** X15.  When the row and column indices fit a [uint], the triplets of an
    assembled system are the Laplacian entries followed by the triplets of
    the vertex blocks, and every triplet of a vertex block lies inside the
    matrix handed to the solver: its row is below the number of rows and
    not among the [uint(3 |V|)] rows of the Laplacian block, its column is
    below the number of columns. *)
Theorem vertex_triplets_inside_matrix `{Collaborators} (m : Mesh)
  (opt : SmootherOptions) (out : list string) (s : Assembly) :
  assemble_system m opt out = Done s ->
  rows_fit s ->
  3 * num_verts m + N.of_nat (length (feature_verts m)) < 2 ^ 32 ->
  exists added,
    mat_triplets (system_matrix m s) =
      laplacian_matrix_entries m (laplacian_mode opt) 3 ++ added /\
    Forall (entry_within (uint_mul (num_verts m) 3)
                         (mat_rows (system_matrix m s))
                         (mat_cols (system_matrix m s))) added.
Proof.
  intros Hs Hfit Hcols.
  destruct (assemble_system_feature_data m opt out s Hs) as (Hsz & _).
  unfold assemble_system in Hs.
  pose proof (laplacian_term_grown m (laplacian_mode opt) (w_laplace opt)
                (mk_Assembly 0 [] [] [] ∅ out)) as Hl.
  set (s0 := laplacian_term m (laplacian_mode opt) (w_laplace opt)
               (mk_Assembly 0 [] [] [] ∅ out)) in *.
  pose proof (grown_by_row_lt _ _ _ Hl) as Hs0.
  destruct (assemble_loop_grown m opt _ s0 s Hs0 Hs) as (k & _ & Hwk & _).
  assert (Hrow0 : row s0 = N.of_nat (length (w s0)) /\ row s0 = uint_mul (num_verts m) 3).
  { destruct Hl as (Hr & Hw & _). cbn [row w length] in Hr, Hw.
    rewrite Hr, Hw. unfold uint_add. cbn [N.add N.of_nat].
    rewrite uint_wrap_small; [auto|]. unfold uint_mul, uint_wrap.
    apply N.mod_lt. discriminate. }
  destruct Hrow0 as (Hrow0 & Hlap).
  destruct (assemble_loop_entries_within m opt (uint_range (num_verts m)) s0 s)
    as (added & He & Hw & _); try assumption.
  - intros v Hv. now apply in_uint_range.
  - rewrite Hsz. assumption.
  - exists added. unfold system_matrix. cbn [mat_triplets mat_rows mat_cols]. split.
    + rewrite He. f_equal. subst s0.
      unfold laplacian_term, advance_row. cbn [entries].
      now rewrite N2Nat.inj_iter, push_entries_fields, push_zero_rows_fields.
    + rewrite Hlap in Hw. rewrite Hsz in Hw |- *.
      assert (Hm3 : uint_mul (num_verts m) 3 = 3 * num_verts m).
      { unfold uint_mul. rewrite uint_wrap_small by lia. lia. }
      rewrite Hm3 in *. exact Hw.
Qed.

(** X16.  A completed call with [n] iterations has written, after what was
    there before, the lines "smooth iter #0" to "smooth iter #n-1" in this
    order, each followed by the warnings of its iteration and by nothing
    else. *)
Theorem call_output `{Collaborators} (m target m' : Mesh) (opt : SmootherOptions)
  (out out' : list string) :
  mesh_smoother m target opt out = Done (m', out') ->
  exists wss : list (list string),
    length wss = length (uint_range (n_iters opt)) /\
    Forall (Forall is_warning) wss /\
    out' = out ++ concat (zip_with (fun i ws => iteration_line i :: ws)
                                   (uint_range (n_iters opt)) wss).
Proof.
  unfold mesh_smoother. destruct (make_octrees m target opt) as [ref_srf ref_feat].
  generalize (label_features m) as m0. generalize (uint_range (n_iters opt)) as l.
  intros l. revert out. induction l as [|i l IH]; intros out m0.
  - intros [= _ <-]. exists []. cbn. rewrite app_nil_r. repeat split. constructor.
  - cbn [for_each].
    destruct (smooth_iter opt ref_srf ref_feat (m0, out) i) as [[m1 out1]|] eqn:E1;
      [|discriminate].
    cbn [bind]. intros Hl.
    destruct (iteration_output_lines opt ref_srf ref_feat m0 m1 out out1 i E1)
      as (ws & -> & Hws).
    destruct (IH _ _ Hl) as (wss & Hlen & Hwss & ->).
    exists (ws :: wss). cbn [length zip_with concat]. split; [now rewrite Hlen|].
    split; [now constructor|].
    rewrite <- !app_assoc. reflexivity.
Qed.

(** ** The octrees *)

Lemma fold_marked_segments `{Collaborators} (m : Mesh) (l : list N) (o : Octree) :
  fold_left (fun o eid => if marked m eid then add_segment o eid (edge_verts m eid) else o)
            l o =
  fold_left (fun o eid => add_segment o eid (edge_verts m eid))
            (filter (fun eid => marked m eid = true) l) o.
Proof.
  revert o. induction l as [|eid l IH]; intros o; [reflexivity|].
  cbn [fold_left]. destruct (marked m eid) eqn:E.
  - rewrite filter_cons_True by assumption. cbn [fold_left]. apply IH.
  - rewrite filter_cons_False by congruence. apply IH.
Qed.

(** X17.  With reprojection enabled the surface octree is built from the
    polygons of the target, and the feature octree receives one segment per
    marked edge of the mesh being smoothed, by increasing edge id, with the
    positions the endpoints have before the first iteration; an unmarked
    edge is never added.  With reprojection disabled both octrees stay
    empty. *)
Theorem octrees_of_a_call `{Collaborators} (m target : Mesh) (opt : SmootherOptions) :
  make_octrees m target opt =
  if reproject_on_target opt
  then (build_from_mesh_polys octree_new target,
        build (fold_left (fun o eid => add_segment o eid (edge_verts m eid))
                         (filter (fun eid => marked m eid = true)
                                 (uint_range (num_edges m)))
                         octree_new))
  else (octree_new, octree_new).
Proof.
  unfold make_octrees. destruct (reproject_on_target opt); [|reflexivity].
  now rewrite fold_marked_segments.
Qed.

(** * The theorems at work on the small mesh *)

Import Demo.

(** A double that compares equal to 0 is +0 or -0. *)
Lemma eqb_zero_cases (x : float) :
  (x =? 0)%float = true -> x = 0%float \/ x = (-0)%float.
Proof.
  rewrite FloatAxioms.eqb_spec. change (Prim2SF 0) with (S754_zero false).
  intros Hx. rewrite <- (SF2Prim_Prim2SF x).
  destruct (Prim2SF x) as [[|]|[|]| |[|] mx ex]; try discriminate; auto.
Qed.

(** The clamped normalization keeps the zero vector a zero vector. *)
Lemma clamped_normalize_zero_vec (v : vec3d) :
  zero_vec v = true ->
  (length_squared (clamped_normalize v) =? 0)%float = true.
Proof.
  destruct v as [x y z]. unfold zero_vec. cbn [vx vy vz].
  intros Hv. apply andb_prop in Hv. destruct Hv as (Hv & Hz).
  apply andb_prop in Hv. destruct Hv as (Hx & Hy).
  destruct (eqb_zero_cases x Hx) as [-> | ->];
    destruct (eqb_zero_cases y Hy) as [-> | ->];
    destruct (eqb_zero_cases z Hz) as [-> | ->]; vm_compute; reflexivity.
Qed.

(** Vertex 0 of the fan is a CORNER: its three rows pin it to (0, 0, 0). *)
Lemma corner_rows_witness :
  exists s',
    assemble_vertex (label_features fan) (options 1) start 0 = Done s' /\
    rhs s' = [0; 0; 0]%float /\
    w s' = [1000000; 1000000; 1000000]%float /\
    row s' = 3.
Proof.
  destruct (corner_rows (label_features fan) (options 1)
              start 0 eq_refl) as (s' & Hd & _ & Hb & Hw & Hr & _).
  exists s'. repeat split; assumption.
Defined.

(** Vertex 1 of the fan is a FEATURE vertex between (0,0,0) and (2,0,0): its
    direction is (-1, 0, 0), its parameter column the first free one, 15. *)
Lemma feature_rows_witness :
  exists s',
    assemble_vertex (label_features fan) (options 1) start 1 = Done s' /\
    feature_data s' !! 1 = Some (pt (-1) 0 0, 15) /\
    rhs s' = [1; 0.25; 0; 0]%float /\
    w s' = [1; 1; 1; 1]%float.
Proof.
  destruct (feature_rows (label_features fan) (options 1)
              start 1 (pt 0 0 0) (pt 2 0 0) eq_refl eq_refl eq_refl)
    as (s' & col_t & Hd & Hfd & _ & Hb & Hw & _).
  exists s'. split; [exact Hd|]. injection Hd as <-.
  repeat split; vm_compute; reflexivity.
Defined.

(** Vertex 3 of the fan is REGULAR with two incident triangles of normal
    (0, 0, 1): two rows, each asking for z = 0. *)
Lemma regular_rows_witness :
  exists s',
    assemble_vertex (label_features fan) (options 1) start 3 = Done s' /\
    entries s' = [ mk_Entry 0 3 0%float; mk_Entry 0 8 0%float; mk_Entry 0 13 1%float;
                   mk_Entry 1 3 0%float; mk_Entry 1 8 0%float; mk_Entry 1 13 1%float ] /\
    rhs s' = [0; 0]%float /\
    w s' = [1; 1]%float /\
    row s' = 2.
Proof.
  destruct (regular_rows (label_features fan) (options 1) start 3 eq_refl eq_refl)
    as (s' & Hd & He & Hb & Hw & Hr & _).
  exists s'. repeat split; assumption.
Defined.

(** On the pinched fan the two feature neighbours of vertex 1 coincide: with
    the clamped normalization the warning is written and the four rows are
    emitted. *)
Lemma degenerate_tangent_is_reported_witness :
  exists s',
    @assemble_vertex clamped (label_features pinched) (options 1) start 1 = Done s' /\
    cout s' = ["WARNING: zero length tangent curve!"%string] /\
    feature_data s' !! 1 = Some (pt 0 0 0, 15) /\
    row s' = 4.
Proof.
  destruct (@degenerate_tangent_is_reported clamped
              (label_features pinched) (options 1) start 1
              (pt 0 0 0) (pt 0 0 0) eq_refl eq_refl eq_refl eq_refl eq_refl
              clamped_normalize_zero_vec)
    as (s' & col_t & Hd & Hc & _ & _ & Hfd & _ & Hr).
  exists s'. split; [exact Hd|]. injection Hd as <-.
  repeat split; vm_compute; reflexivity.
Defined.

(** The labels of the fan: 0 and 2 end the marked line, 1 is inside it. *)
Lemma classification_once_witness :
  label (label_features fan) 0 = CORNER /\
  label (label_features fan) 1 = FEATURE /\
  label (label_features fan) 3 = REGULAR.
Proof.
  pose proof (proj1 (classification_once fan eq_refl)) as Hc.
  split; [exact (Hc 0 eq_refl)|split; [exact (Hc 1 eq_refl)|exact (Hc 3 eq_refl)]].
Defined.

(** No iteration: the fan comes back with its positions. *)
Lemma zero_iterations_keep_positions_witness :
  exists m',
    mesh_smoother fan fan (options 0) [] = Done (m', []) /\ vert m' = vert fan.
Proof.
  destruct (zero_iterations_keep_positions fan fan (options 0) [] eq_refl)
    as (m' & Hd & _ & Hv & _).
  exists m'. split; assumption.
Defined.

(** The system of the fan has 15 coordinate columns and one feature column,
    the one of vertex 1. *)
Lemma column_layout_witness :
  mat_cols (system_matrix (label_features fan) (assembled fan)) = 16 /\
  feature_data (assembled fan) !! 1 = Some (pt (-1) 0 0, 15).
Proof.
  assert (Hs : assemble_system (label_features fan) (options 1) [iteration_line 0]
               = Done (assembled fan)) by (vm_compute; reflexivity).
  destruct (column_layout (label_features fan) (options 1) _ _ Hs eq_refl)
    as (_ & Hcol & _ & Hcols).
  split; [exact Hcols|].
  destruct (Hcol 0%nat 1 eq_refl) as (dir & Hd).
  vm_compute. reflexivity.
Defined.

(** One iteration on the fan with the solver stand-in: t = 0.5 moves vertex
    1 from (1, 0.25, 0) to (0.5, 0.25, 0), along (-1, 0, 0). *)
Lemma feature_update_along_tangent_witness :
  exists m',
    smooth_iter (options 1) octree_new octree_new (label_features fan, []) 0
    = Done (m', ["smooth iter #0"%string]) /\
    vert m' 1 = vec_add (pt 1 0.25 0) (vec_scale (pt (-1) 0 0) 0.5) /\
    vert m' 1 = pt 0.5 0.25 0.
Proof.
  assert (Hs : assemble_system (label_features fan) (options 1) ([] ++ [iteration_line 0])
               = Done (assembled fan)) by (vm_compute; reflexivity).
  destruct (feature_update_along_tangent (label_features fan) (options 1)
              octree_new octree_new [] 0
              (assembled fan) (repeat 0.5%float 16) 1
              eq_refl Hs eq_refl eq_refl eq_refl eq_refl eq_refl)
    as (m' & dir & col_t & t & Hd & Hfd & Ht & Hpos).
  exists m'.
  assert (Hfd' : feature_data (assembled fan) !! 1 = Some (pt (-1) 0 0, 15))
    by (vm_compute; reflexivity).
  rewrite Hfd' in Hfd. injection Hfd as <- <-.
  assert (Ht' : repeat 0.5%float 16 !! N.to_nat 15 = Some 0.5%float) by reflexivity.
  rewrite Ht' in Ht. injection Ht as <-.
  split; [exact Hd|]. split; [exact Hpos|]. rewrite Hpos. reflexivity.
Defined.

(** C8, the consequence that does not hold.  On the mesh [far] the FEATURE
    vertex [v1] sits at (10^16, 0, 0), its direction is the diagonal
    (c, c, 0) of the xy plane and the solution gives t = 0.5.  The update
    adds t * dir coordinate by coordinate: the sum 10^16 + c/2 rounds back
    to 10^16 and the y coordinate becomes c/2.  The vertex has moved along
    the y axis only: its displacement is no multiple of the direction, and
    the cross product of the two is far from zero. *)
Lemma feature_displacement_not_parallel :
  exists m' dir col_t res,
    label (label_features far) 1 = FEATURE /\
    solve_weighted_least_squares
      (system_matrix (label_features far) (assembled far))
      (w (assembled far)) (rhs (assembled far)) = Some res /\
    smooth_iter (options 1) octree_new octree_new (label_features far, []) 0
    = Done (m', [iteration_line 0]) /\
    feature_data (assembled far) !! 1 = Some (dir, col_t) /\
    res !! N.to_nat col_t = Some 0.5%float /\
    vert m' 1 = vec_add (vert (label_features far) 1) (vec_scale dir 0.5) /\
    vx (vert m' 1) = vx (vert (label_features far) 1) /\
    (vy (vert m' 1) =? vy (vert (label_features far) 1))%float = false /\
    (forall k : float,
       vec_sub (vert m' 1) (vert (label_features far) 1) <> vec_scale dir k) /\
    (vz (cross (vec_sub (vert m' 1) (vert (label_features far) 1)) dir)
       <? -0.125)%float = true.
Proof.
  exists (fst far_once), (unit_or_zero (pt 1 1 0)), 15, (repeat 0.5%float 16).
  do 8 (refine (conj _ _); [vm_compute; reflexivity|]).
  refine (conj _ _); [|vm_compute; reflexivity].
  intros k Hk.
  assert (Hxy : vx (vec_scale (unit_or_zero (pt 1 1 0)) k)
                = vy (vec_scale (unit_or_zero (pt 1 1 0)) k))
    by (vm_compute; reflexivity).
  rewrite <- Hk in Hxy.
  apply (f_equal (fun a => (a =? 0)%float)) in Hxy.
  vm_compute in Hxy. discriminate.
Qed.

(** On the fan the only FEATURE vertex has its two marked edges, and a call
    with three iterations completes. *)
Lemma label_assertions_unreachable_witness :
  length (marked_edges (label_features fan) 1) = 2%nat /\
  forall f, mesh_smoother fan fan (options 3) [] = Abort f ->
            f <> nbrs_size_assertion /\ f <> unknown_vertex_type_assertion.
Proof.
  destruct (label_assertions_unreachable fan eq_refl) as (Hf & _ & Ha).
  split; [exact (Hf 1 eq_refl eq_refl)|].
  intros f Hab. destruct (Ha fan (options 3) [] f Hab) as (H1 & H2 & _). now split.
Defined.

(** From the empty system, the three rows of a corner move the counter and
    both vectors to 3. *)
Lemma counters_move_together_witness :
  advanced_by 3 start (hold_corner (label_features fan) 0 (w_corner (options 1)) start) /\
  counters_agree (hold_corner (label_features fan) 0 (w_corner (options 1)) start).
Proof.
  destruct (counters_move_together (label_features fan) (options 1) 0 start
              (conj eq_refl eq_refl)) as (_ & _ & _ & Hc & _).
  apply Hc. reflexivity.
Defined.

(** * The further properties on the small meshes *)

(** Vertex 0 of the fan has one marked edge: the tangent-line block refuses
    it. *)
Lemma tangent_line_needs_two_marked_edges_witness :
  smooth_on_tangent_line (label_features fan) 0 1%float start = Abort nbrs_size_assertion.
Proof.
  apply tangent_line_needs_two_marked_edges. vm_compute. discriminate.
Defined.

(** Vertex 1 has its parameter in the assembled system: a second call for it
    is refused. *)
Lemma tangent_line_allocates_once_witness :
  smooth_on_tangent_line (label_features fan) 1 1%float (assembled fan)
  = Abort does_not_contain_assertion.
Proof.
  apply tangent_line_allocates_once; [reflexivity|].
  exists (pt (-1) 0 0, 15). vm_compute. reflexivity.
Defined.

Lemma assembly_completes_witness :
  exists s, assemble_system (label_features fan) (options 1) [] = Done s.
Proof.
  apply assembly_completes. apply label_features_labelled. reflexivity.
Defined.

(** The fan as it is given carries no label yet. *)
Lemma unknown_label_stops_assembly_witness :
  exists f, assemble_system fan (options 1) [] = Abort f.
Proof.
  apply (unknown_label_stops_assembly fan (options 1) [] 0); reflexivity.
Defined.

(** With the solver stand-in the corner [v0] of the fan goes to
    (0.5, 0.5, 0.5). *)
Lemma coordinate_update_witness :
  exists m',
    smooth_iter (options 1) octree_new octree_new (label_features fan, []) 0
    = Done (m', ["smooth iter #0"%string]) /\
    vert m' 0 = pt 0.5 0.5 0.5.
Proof.
  assert (Hs : assemble_system (label_features fan) (options 1) ([] ++ [iteration_line 0])
               = Done (assembled fan)) by (vm_compute; reflexivity).
  destruct (coordinate_update (label_features fan) (options 1) octree_new octree_new [] 0
              (assembled fan) (repeat 0.5%float 16) 0
              Hs eq_refl eq_refl eq_refl eq_refl (or_intror eq_refl))
    as (m' & x & y & z & Hd & Hx & Hy & Hz & Hpos).
  exists m'. split; [exact Hd|].
  injection Hx as <-. injection Hy as <-. injection Hz as <-. exact Hpos.
Defined.

(** With reprojection enabled (the stand-in octree returns the query point)
    the feature vertex [v1] goes through the feature octree. *)
Lemma feature_update_snapped_witness :
  exists m',
    smooth_iter (reprojecting 1) octree_new octree_new (label_features fan, []) 0
    = Done (m', ["smooth iter #0"%string]) /\
    vert m' 1 = closest_point octree_new (pt 0.5 0.25 0).
Proof.
  assert (Hs : assemble_system (label_features fan) (reprojecting 1)
                 ([] ++ [iteration_line 0])
               = Done (assembled fan)) by (vm_compute; reflexivity).
  destruct (feature_update_snapped (label_features fan) (reprojecting 1)
              octree_new octree_new [] 0
              (assembled fan) (repeat 0.5%float 16) 1
              Hs eq_refl eq_refl eq_refl eq_refl eq_refl)
    as (m' & dir & col_t & t & Hd & Hfd & Ht & Hpos).
  exists m'. split; [exact Hd|].
  assert (Hfd' : feature_data (assembled fan) !! 1 = Some (pt (-1) 0 0, 15))
    by (vm_compute; reflexivity).
  rewrite Hfd' in Hfd. injection Hfd as <- <-.
  assert (Ht' : repeat 0.5%float 16 !! N.to_nat 15 = Some 0.5%float) by reflexivity.
  rewrite Ht' in Ht. injection Ht as <-.
  rewrite Hpos. reflexivity.
Defined.

Lemma half_solver_answers : solver_answers.
Proof.
  intros A W RHS. eexists. split; [reflexivity|]. apply repeat_length.
Qed.

Lemma smoothing_completes_witness :
  exists m' out', mesh_smoother fan fan (options 3) [] = Done (m', out').
Proof.
  apply smoothing_completes; [exact half_solver_answers|reflexivity|].
  vm_compute. reflexivity.
Defined.

Lemma smoothing_keeps_topology_and_normals_witness :
  normal (fst smoothed) = normal fan /\ marked (fst smoothed) = marked fan.
Proof.
  assert (Hd : mesh_smoother fan fan (options 2) [] = Done (fst smoothed, snd smoothed))
    by (vm_compute; reflexivity).
  destruct (smoothing_keeps_topology_and_normals fan fan _ (options 2) [] _ Hd)
    as (_ & _ & Hm & Hn & _).
  split; assumption.
Defined.

Lemma target_unused_without_reprojection_witness :
  mesh_smoother fan fan (options 2) [] = mesh_smoother fan pinched (options 2) [].
Proof.
  apply target_unused_without_reprojection. reflexivity.
Defined.

(** The labels of the fan do not depend on the labels it carried. *)
Lemma label_features_ignores_old_labels_witness :
  label (label_features mislabelled) 0 = label (label_features fan) 0.
Proof.
  destruct (label_features_ignores_old_labels fan mislabelled eq_refl eq_refl eq_refl)
    as (Hsame & _).
  apply Hsame. reflexivity.
Defined.

(** The system of the fan has 15 + 3 + 4 + 3 + 2 + 2 rows. *)
Lemma system_rows_witness :
  mat_rows (system_matrix (label_features fan) (assembled fan)) = 29.
Proof.
  assert (Hs : assemble_system (label_features fan) (options 1) [iteration_line 0]
               = Done (assembled fan)) by (vm_compute; reflexivity).
  destruct (system_rows (label_features fan) (options 1) _ _ Hs) as (Hr & _).
  - vm_compute. reflexivity.
  - exact Hr.
Defined.

(** On the ridge the feature vertices [v0] and [v1] get the columns 15 and
    16 of 17; on the fan the only feature vertex [v1] gets the column 15 of
    16. *)
Lemma feature_columns_distinct_witness :
  (3 * 5 <= 15 /\ 15 < mat_cols (system_matrix (label_features ridge) (assembled ridge))) /\
  (3 * 5 <= 16 /\ 16 < mat_cols (system_matrix (label_features ridge) (assembled ridge))) /\
  15 <> 16 /\
  (3 * 5 <= 15 /\ 15 < mat_cols (system_matrix (label_features fan) (assembled fan))).
Proof.
  assert (Hs : assemble_system (label_features ridge) (options 1) [iteration_line 0]
               = Done (assembled ridge)) by (vm_compute; reflexivity).
  assert (Hf : assemble_system (label_features fan) (options 1) [iteration_line 0]
               = Done (assembled fan)) by (vm_compute; reflexivity).
  destruct (feature_columns_distinct (label_features ridge) (options 1) _ _ Hs eq_refl)
    as (Hrange & Hdiff).
  destruct (feature_columns_distinct (label_features fan) (options 1) _ _ Hf eq_refl)
    as (Hfan & _).
  assert (H0 : feature_data (assembled ridge) !! 0
               = Some (unit_or_zero (vec_sub (pt 1 0.25 0) (pt 1 1 0)), 15))
    by (vm_compute; reflexivity).
  assert (H1 : feature_data (assembled ridge) !! 1
               = Some (unit_or_zero (vec_sub (pt 0 0 0) (pt 2 0 0)), 16))
    by (vm_compute; reflexivity).
  assert (H2 : feature_data (assembled fan) !! 1 = Some (pt (-1) 0 0, 15))
    by (vm_compute; reflexivity).
  refine (conj (Hrange _ _ _ H0) (conj (Hrange _ _ _ H1) (conj _ (Hfan _ _ _ H2)))).
  apply (Hdiff 0 1 _ _ _ _ H0 H1). discriminate.
Defined.

(** One iteration on the pinched fan writes its line and the warning. *)
Lemma iteration_output_witness :
  exists ws,
    snd pinched_once = [] ++ iteration_line 0 :: ws /\ Forall is_warning ws.
Proof.
  apply (iteration_output (options 1) octree_new octree_new
           (label_features pinched) (fst pinched_once) [] (snd pinched_once) 0).
  vm_compute. reflexivity.
Defined.

Lemma vertex_triplets_inside_matrix_witness :
  exists added,
    mat_triplets (system_matrix (label_features fan) (assembled fan)) =
      laplacian_matrix_entries (label_features fan) (laplacian_mode (options 1)) 3
      ++ added /\
    Forall (entry_within 15 29 16) added.
Proof.
  assert (Hs : assemble_system (label_features fan) (options 1) [iteration_line 0]
               = Done (assembled fan)) by (vm_compute; reflexivity).
  destruct (vertex_triplets_inside_matrix (label_features fan) (options 1) _ _ Hs)
    as (added & He & Hw).
  - vm_compute. reflexivity.
  - vm_compute. reflexivity.
  - exists added. split; [exact He|].
    assert (Hr : mat_rows (system_matrix (label_features fan) (assembled fan)) = 29)
      by (vm_compute; reflexivity).
    assert (Hc : mat_cols (system_matrix (label_features fan) (assembled fan)) = 16)
      by (vm_compute; reflexivity).
    rewrite Hr, Hc in Hw. exact Hw.
Defined.

Lemma call_output_witness :
  exists wss : list (list string),
    length wss = length (uint_range 2) /\
    Forall (Forall is_warning) wss /\
    snd smoothed = [] ++ concat (zip_with (fun i ws => iteration_line i :: ws)
                                          (uint_range 2) wss).
Proof.
  apply (call_output fan fan (fst smoothed) (options 2) [] (snd smoothed)).
  vm_compute. reflexivity.
Defined.
